(** * spidey-ff-tts: the /tts endpoint of [app.py]

    A shallow embedding of the decision logic of [app.py]: the usage
    counters ([load_stats], [save_stats]), the voice normaliser
    ([get_flag_emoji], [parse_voice]) and the [/tts] handler ([tts_api])
    with its voice selection and its transient audio file, and the pages
    ([root], [gallery], [languages]) and admin routes ([admin_login],
    [admin_panel], [logout]) with the session they read and write.

    Python values are modelled as follows.
    - [str] is a sequence of Unicode code points, [list Z].
    - [str.lower] is a table of the Unicode database; every definition
      that calls it takes it as the section variable [lower].  The
      instance [ascii_lower] agrees with [str.lower] on ASCII text and is
      used to run the definitions on concrete inputs.
    - [dict] values read from JSON are association lists; [request.args]
      and [request.form] are association lists whose [get] returns the
      first value of a key.
    - The scratch directory is a finite map from paths to file contents.
    - The stats file is a parsed JSON document, a document whose write was
      cut short, or text that is not JSON; [dumps] is the text that
      [json.dump] writes, and decides where a write is cut short.
    - Everything the handler obtains from outside (the engine's voice
      list, the rendered audio, the random draw, I/O failures) is a field
      of the record [env]. *)

From Stdlib Require Import ZArith String Ascii Bool Lia.
From stdpp Require Import base option list sorting gmap.

Local Open Scope Z_scope.

#[local] Set Warnings "-register-all".

(** ** Python strings *)

Module PyStr.

Abbreviation str := (list Z).

(** A string literal of the source, as code points. *)
Definition lit (s : string) : str :=
  map (fun a => Z.of_N (N_of_ascii a)) (list_ascii_of_string s).

(** [bool(s)] for a value that is [None] or a string. *)
Definition truthy (o : option str) : bool :=
  match o with
  | Some (_ :: _) => true
  | _ => false
  end.

(** [a or b] where [a] is [None] or a string. *)
Definition py_or (a b : option str) : option str :=
  if truthy a then a else b.

Definition str_eqb (a b : str) : bool := bool_decide (a = b).

(** [hay.startswith(pre)] *)
Fixpoint startswith (pre hay : str) : bool :=
  match pre, hay with
  | [], _ => true
  | _ :: _, [] => false
  | p :: pre', h :: hay' => (p =? h) && startswith pre' hay'
  end.

(** [needle in hay] *)
Fixpoint contains (needle hay : str) : bool :=
  startswith needle hay ||
  match hay with
  | [] => false
  | _ :: hay' => contains needle hay'
  end.

(** [s.replace(old, new)] for a non-empty [old]: occurrences are taken
    left to right and do not overlap.  [skip] counts the code points of
    the occurrence just replaced that are still to be passed over. *)
Fixpoint replace_go (old new : str) (skip : nat) (s : str) : str :=
  match s with
  | [] => []
  | c :: s' =>
      match skip with
      | S k => replace_go old new k s'
      | O =>
          if startswith old s
          then new ++ replace_go old new (Nat.pred (length old)) s'
          else c :: replace_go old new 0 s'
      end
  end.

Definition replace (old new s : str) : str := replace_go old new 0 s.

(** [s.split(sep)] for a non-empty [sep]; the result is never empty. *)
Fixpoint split_go (sep : str) (skip : nat) (s : str) : list str :=
  match s with
  | [] => [[]]
  | c :: s' =>
      match skip with
      | S k => split_go sep k s'
      | O =>
          if startswith sep s
          then [] :: split_go sep (Nat.pred (length sep)) s'
          else match split_go sep 0 s' with
               | seg :: rest => (c :: seg) :: rest
               | [] => [[c]]
               end
      end
  end.

Definition split (sep s : str) : list str := split_go sep 0 s.

(** [sep.join(parts)] *)
Fixpoint join (sep : str) (parts : list str) : str :=
  match parts with
  | [] => []
  | [x] => x
  | x :: rest => x ++ sep ++ join sep rest
  end.

(** [parts[-1]] of a non-empty list of strings. *)
Definition last_part (parts : list str) : str := List.last parts [].

(** [c.isspace()]: the code points [str.strip()] removes. *)
Definition isspace (c : Z) : bool :=
  ((9 <=? c) && (c <=? 13)) || ((28 <=? c) && (c <=? 32)) ||
  (c =? 133) || (c =? 160) || (c =? 5760) ||
  ((8192 <=? c) && (c <=? 8202)) || (c =? 8232) || (c =? 8233) ||
  (c =? 8239) || (c =? 8287) || (c =? 12288).

Fixpoint lstrip (s : str) : str :=
  match s with
  | [] => []
  | c :: s' => if isspace c then lstrip s' else s
  end.

Fixpoint rstrip (s : str) : str :=
  match s with
  | [] => []
  | c :: s' =>
      match rstrip s' with
      | [] => if isspace c then [] else [c]
      | r => c :: r
      end
  end.

(** [s.strip()] *)
Definition strip (s : str) : str := rstrip (lstrip s).

(** [str.lower] restricted to ASCII: only [A]..[Z] change. *)
Definition ascii_lower (s : str) : str :=
  map (fun c => if (65 <=? c) && (c <=? 90) then c + 32 else c) s.

End PyStr.


Import PyStr.

(** ** Usage counters: [load_stats] and [save_stats] *)

Module Stats.

(** What [json.load] can return.  Numbers with a fraction are left out:
    the counters are integers. *)
Inductive json :=
| JNull
| JBool (b : bool)
| JInt (z : Z)
| JStr (s : str)
| JList (l : list json)
| JDict (d : list (str * json)).

Abbreviation dict := (list (str * json)).

(** [d[k]]; [None] stands for [KeyError]. *)
Fixpoint dict_get (k : str) (d : dict) : option json :=
  match d with
  | [] => None
  | (k', v) :: d' => if str_eqb k k' then Some v else dict_get k d'
  end.

(** [d[k] = v]: an existing key keeps its place, a new key goes last. *)
Fixpoint dict_set (k : str) (v : json) (d : dict) : dict :=
  match d with
  | [] => [(k, v)]
  | (k', v') :: d' =>
      if str_eqb k k' then (k', v) :: d' else (k', v') :: dict_set k v d'
  end.

(** [x + 1]; [None] stands for [TypeError]. *)
Definition add1 (x : json) : option json :=
  match x with
  | JInt z => Some (JInt (z + 1))
  | JBool b => Some (JInt ((if b then 1 else 0) + 1))
  | _ => None
  end.

(** [stats[k] += 1]; [None] when the statement raises. *)
Definition incr (k : str) (stats : json) : option json :=
  match stats with
  | JDict d =>
      x ← dict_get k d;
      y ← add1 x;
      Some (JDict (dict_set k y d))
  | _ => None
  end.

(** [str(z)] of an [int]. *)
Fixpoint uint_digits (d : Decimal.uint) : str :=
  match d with
  | Decimal.Nil => []
  | Decimal.D0 d => 48 :: uint_digits d
  | Decimal.D1 d => 49 :: uint_digits d
  | Decimal.D2 d => 50 :: uint_digits d
  | Decimal.D3 d => 51 :: uint_digits d
  | Decimal.D4 d => 52 :: uint_digits d
  | Decimal.D5 d => 53 :: uint_digits d
  | Decimal.D6 d => 54 :: uint_digits d
  | Decimal.D7 d => 55 :: uint_digits d
  | Decimal.D8 d => 56 :: uint_digits d
  | Decimal.D9 d => 57 :: uint_digits d
  end.

Definition int_repr (z : Z) : str :=
  match Z.to_int z with
  | Decimal.Pos d => uint_digits d
  | Decimal.Neg d => 45 :: uint_digits d
  end.

Definition hex_digit (n : Z) : Z := if n <? 10 then 48 + n else 87 + n.

(** The escape of the code unit [n]: backslash, [u] and four lowercase
    hexadecimal digits. *)
Definition u_escape (n : Z) : str :=
  [92; 117; hex_digit (n / 4096 mod 16); hex_digit (n / 256 mod 16);
   hex_digit (n / 16 mod 16); hex_digit (n mod 16)].

(** One code point of a string under [ensure_ascii=True]: the quote and
    the backslash, the short escapes of backspace, form feed, newline,
    carriage return and tab, printable ASCII as it is, and [u_escape]
    (a surrogate pair above U+FFFF) for everything else. *)
Definition escape_char (c : Z) : str :=
  if c =? 34 then [92; 34]
  else if c =? 92 then [92; 92]
  else if c =? 8 then [92; 98]
  else if c =? 12 then [92; 102]
  else if c =? 10 then [92; 110]
  else if c =? 13 then [92; 114]
  else if c =? 9 then [92; 116]
  else if (32 <=? c) && (c <=? 126) then [c]
  else if c <? 65536 then u_escape c
  else
    let n := c - 65536 in
    u_escape (Z.lor 55296 (Z.land (Z.shiftr n 10) 1023)) ++
    u_escape (Z.lor 56320 (Z.land n 1023)).

Definition quote (s : str) : str := 34 :: flat_map escape_char s ++ [34].

(** [json.dumps(j)] with the defaults of [json.dump]: items separated by
    a comma and a space, keys followed by a colon and a space, no
    indentation, [ensure_ascii=True]. *)
Fixpoint dumps (j : json) : str :=
  match j with
  | JNull => lit "null"
  | JBool b => if b then lit "true" else lit "false"
  | JInt z => int_repr z
  | JStr s => quote s
  | JList l => lit "[" ++ join (lit ", ") (map dumps l) ++ lit "]"
  | JDict d =>
      lit "{" ++
      join (lit ", ")
        (map (fun kv => let '(k, v) := kv in quote k ++ lit ": " ++ dumps v) d)
      ++ lit "}"
  end.

(** The file at [STATS_FILE] when it exists: a complete JSON document, a
    document whose write was cut short, or anything else that [json.load]
    rejects.  [Torn j n] is a strict prefix of [dumps j], see
    [torn_text]; only a [dict] is ever written, and no strict prefix of
    the serialisation of a [dict] parses, so [json.load] rejects a [Torn]
    file. *)
Inductive content :=
| Doc (j : json)
| Torn (j : json) (n : nat)
| Junk.

(** The text of a [Torn j n] file: the first [n] code points of
    [dumps j], and all but the last one when [n] is not below the length
    of [dumps j]. *)
Definition torn_text (j : json) (n : nat) : str :=
  take (n `min` Nat.pred (length (dumps j))) (dumps j).

(** How [open(STATS_FILE, 'w')] followed by [json.dump] ends:
    - [WriteOk]: the document is written in full;
    - [OpenFails]: [open] raises, the file is not touched;
    - [DumpFails n]: [open] has truncated the file and an exception is
      raised when [n] code points of the document have reached the file;
      when [n] is not below the length of the document, all of it has.
      The document is ASCII, so a code point is a byte. *)
Inductive write_outcome :=
| WriteOk
| OpenFails
| DumpFails (n : nat).

Definition zero_stats : json :=
  JDict [(lit "total", JInt 0); (lit "api", JInt 0); (lit "ui", JInt 0)].

(** [load_stats()]: [readable] is false when [open(STATS_FILE, 'r')]
    raises.  Every exception is caught and gives the zero record. *)
Definition load_stats (readable : bool) (f : option content) : json :=
  match f with
  | Some (Doc j) => if readable then j else zero_stats
  | Some (Torn _ _) => zero_stats
  | Some Junk => zero_stats
  | None => zero_stats
  end.

(** The [try] block of [save_stats]: the file afterwards, and whether the
    block ran to its end ([false]: an exception reached [except]).  A
    write that raises before the last code point leaves a [Torn] file,
    one that raises after it leaves the whole document. *)
Definition save_stats_try (readable : bool) (wr : write_outcome)
    (mode : str) (f : option content) : option content * bool :=
  let stats := load_stats readable f in
  match incr (lit "total") stats with
  | None => (f, false)
  | Some stats1 =>
      match incr (if str_eqb mode (lit "API") then lit "api" else lit "ui")
                 stats1 with
      | None => (f, false)
      | Some stats2 =>
          match wr with
          | OpenFails => (f, false)
          | DumpFails n =>
              (Some (if (n <? length (dumps stats2))%nat
                     then Torn stats2 n
                     else Doc stats2),
               false)
          | WriteOk => (Some (Doc stats2), true)
          end
      end
  end.

(** [save_stats(mode)]: the bare [except: pass] discards any exception,
    so the call always returns. *)
Definition save_stats (readable : bool) (wr : write_outcome)
    (mode : str) (f : option content) : option content :=
  fst (save_stats_try readable wr mode f).

(** A record of three integer counters, as the file holds it. *)
Definition counters (t a u : Z) : json :=
  JDict [(lit "total", JInt t); (lit "api", JInt a); (lit "ui", JInt u)].

End Stats.

(** ** Voice records: [get_flag_emoji] and [parse_voice] *)

Module Voice.

(** An entry of [edge_tts.list_voices()].  [FriendlyName] is read under a
    [try]; [None] stands for an entry without that key. *)
Record raw_voice := {
  ShortName : str;
  FriendlyName : option str;
  Gender : str;
  Locale : str;
}.

Definition globe : str := [127760].
Definition white_flag : str := [127987; 65039].

(** [chr(n)]; [None] stands for [ValueError]. *)
Definition chr (n : Z) : option Z :=
  if (0 <=? n) && (n <? 1114112) then Some n else None.

(** [get_flag_emoji(locale)].  [code[0]] and [code[1]] raise [IndexError]
    on a short [code]; the [except] branch returns the white flag. *)
Definition get_flag_emoji (locale : str) : str :=
  if contains (lit "-") locale then
    let code := last_part (split (lit "-") locale) in
    match code with
    | c0 :: c1 :: _ =>
        match chr (c0 + 127397), chr (c1 + 127397) with
        | Some a, Some b => [a; b]
        | _, _ => white_flag
        end
    | _ => white_flag
    end
  else globe.

Record voice := {
  id : str;
  name : str;
  gender : str;
  locale : str;
  flag : str;
  full_lang : str;
}.

(** [parse_voice(v)] *)
Definition parse_voice (v : raw_voice) : voice :=
  let parts := split (lit "-") (ShortName v) in
  let name :=
    if (2 <? length parts)%nat
    then replace (lit "Neural") [] (nth 2 parts [])
    else ShortName v in
  let full_lang :=
    match FriendlyName v with
    | Some fn => last_part (split (lit " - ") fn)
    | None => Locale v
    end in
  {| id := ShortName v;
     name := name;
     gender := Gender v;
     locale := Locale v;
     flag := get_flag_emoji (Locale v);
     full_lang := full_lang |}.

End Voice.

Import Stats Voice.

(** ** The [/tts] endpoint *)

Module Tts.

Abbreviation bytes := (list Byte.byte).
Abbreviation multidict := (list (str * str)).

(** [d.get(k)] of a werkzeug [MultiDict]: the first value of [k]. *)
Fixpoint md_get (k : str) (d : multidict) : option str :=
  match d with
  | [] => None
  | (k', v) :: d' => if str_eqb k k' then Some v else md_get k d'
  end.

Record request := {
  args : multidict;
  form : multidict;
  referrer : option str;
  host : str;
}.

(** The six locals of step 1 of [tts_api]. *)
Record params := {
  text : option str;
  voice_param : option str;
  lang : option str;
  gender_param : option str;
  country : option str;
  rate : str;
}.

Definition get_params (r : request) : params :=
  {| text := py_or (md_get (lit "text") (args r)) (md_get (lit "text") (form r));
     voice_param :=
       py_or (md_get (lit "voice") (args r)) (md_get (lit "voice") (form r));
     lang := md_get (lit "lang") (args r);
     gender_param := md_get (lit "gender") (args r);
     country := md_get (lit "country") (args r);
     rate := default (lit "+0%")
               (py_or (md_get (lit "rate") (args r)) (Some (lit "+0%"))) |}.

Inductive body :=
| JsonBody (d : list (str * str))
| RawBody (data : bytes).

Record response := {
  status : Z;
  payload : body;
  mimetype : str;
  headers : list (str * str);
}.

(** [jsonify({"error": msg}), code] *)
Definition json_error (code : Z) (msg : str) : response :=
  {| status := code;
     payload := JsonBody [(lit "error", msg)];
     mimetype := lit "application/json";
     headers := [] |}.

(** [Response(data, mimetype="audio/mpeg", headers={...})].  The
    constructor is taken to succeed; it raises for a header value that
    holds a line break, which the default id and the ids of the engine's
    list do not. *)
Definition audio_response (data : bytes) (selected_voice : str) : response :=
  {| status := 200;
     payload := RawBody data;
     mimetype := lit "audio/mpeg";
     headers :=
       [(lit "Content-Disposition",
         lit "attachment; filename=tts_" ++ selected_voice ++ lit ".mp3");
        (lit "X-Voice-Used", selected_voice)] |}.

(** How [Communicate(text, voice, rate=rate).save(t_name)] ends: the
    audio is written to the file, or an exception with message [msg] is
    raised after [partial] has been written. *)
Inductive render_result :=
| Rendered (audio : bytes)
| RenderError (msg : str) (partial : bytes).

(** What one request obtains from outside the handler. *)
Record env := {
  stats_readable : bool;
  stats_write : write_outcome;
  (** [edge_tts.list_voices()]; [None] when it raises *)
  list_voices : option (list raw_voice);
  (** the draw of [random.choice] *)
  randbelow : nat;
  (** [NamedTemporaryFile(delete=False, ...)]: the new file's name, or the
      message of the exception *)
  named_temporary_file : str + str;
  communicate_save : str -> str -> str -> render_result;
  (** the exception of [open(t_name, 'rb')] and [f.read()], if any *)
  read_error : option str;
  (** the exception of [os.remove(t_name)], if any *)
  remove_error : option str;
}.

(** The files the handler reads and writes.  [stats_file] is the file at
    [STATS_FILE]; [scratch] holds, by path, the other files of the
    directory in which the transient files are created.  [STATS_FILE]
    lies in that same directory, and the name of a transient file, which
    ends in [.mp3], is never its path. *)
Record world := {
  stats_file : option content;
  scratch : gmap str bytes;
}.

(** A file of the directory: the stats file or any other file. *)
Inductive file :=
| StatsFile (c : content)
| OtherFile (data : bytes).

(** The directory as one map from paths to files, [stats_path] being the
    path of [STATS_FILE]: at that path stands the stats file, whatever
    [scratch] holds there. *)
Definition file_at (stats_path : str) (w : world) (p : str) : option file :=
  if bool_decide (p = stats_path)
  then StatsFile <$> stats_file w
  else OtherFile <$> scratch w !! p.

Definition default_voice : str := lit "en-US-AriaNeural".

Section Resolver.

Variable lower : str -> str.

(** The [for v in all_voices] loop of the explicit-id branch, with its
    [break]; [selected_voice] is the value the variable holds on entry. *)
Fixpoint smart_match (clean : str) (all_voices : list raw_voice)
    (selected_voice : str) : str :=
  match all_voices with
  | [] => selected_voice
  | v :: rest =>
      if contains clean (lower (ShortName v))
      then ShortName v
      else smart_match clean rest selected_voice
  end.

Definition by_lang (lang : str) (v : raw_voice) : bool :=
  startswith (lower lang) (lower (Locale v)).

Definition by_gender (gender : str) (v : raw_voice) : bool :=
  str_eqb (lower (Gender v)) (lower gender).

Definition by_country (country : str) (v : raw_voice) : bool :=
  str_eqb (lower (last_part (split (lit "-") (Locale v)))) (lower country).

(** One [if x: candidates = [v for v in candidates if ...]] step. *)
Definition narrow (x : option str) (keep : str -> raw_voice -> bool)
    (candidates : list raw_voice) : list raw_voice :=
  if truthy x then List.filter (keep (default [] x)) candidates
  else candidates.

Definition filter_candidates (all_voices : list raw_voice)
    (lang gender country : option str) : list raw_voice :=
  narrow country by_country
    (narrow gender by_gender
       (narrow lang by_lang all_voices)).

(** [random.choice(seq)] is [seq[randbelow(len(seq))]]. *)
Definition choice (draw : nat) (seq : list raw_voice) : option raw_voice :=
  seq !! (draw mod length seq)%nat.

(** Step 4 of [tts_api]. *)
Definition select_voice (all_voices : list raw_voice)
    (voice_param lang gender country : option str) (draw : nat) : str :=
  let selected_voice := default_voice in
  if truthy voice_param then
    let clean :=
      strip (replace (lit "neural") [] (lower (default [] voice_param))) in
    smart_match clean all_voices selected_voice
  else if truthy lang || truthy gender || truthy country then
    let candidates := filter_candidates all_voices lang gender country in
    match choice draw candidates with
    | Some v => ShortName v
    | None => selected_voice
    end
  else selected_voice.

(** Step 5 of [tts_api]: every exception inside the [try] gives the 500
    response; [os.remove] is the last statement before the [return]. *)
Definition synthesize (e : env) (text selected_voice rate : str)
    (fs : gmap str bytes) : response * gmap str bytes :=
  match named_temporary_file e with
  | inr msg => (json_error 500 msg, fs)
  | inl t_name =>
      let fs1 := <[t_name := []]> fs in
      match communicate_save e text selected_voice rate with
      | RenderError msg partial =>
          (json_error 500 msg, <[t_name := partial]> fs1)
      | Rendered audio =>
          let fs2 := <[t_name := audio]> fs1 in
          match read_error e with
          | Some msg => (json_error 500 msg, fs2)
          | None =>
              let data := default [] (fs2 !! t_name) in
              match remove_error e with
              | Some msg => (json_error 500 msg, fs2)
              | None =>
                  (audio_response data selected_voice, delete t_name fs2)
              end
          end
      end
  end.

(** Step 2 of [tts_api]. *)
Definition usage_mode (r : request) : str :=
  if truthy (referrer r) && contains (host r) (default [] (referrer r))
  then lit "UI" else lit "API".

Definition tts_api (e : env) (r : request) (w : world) : response * world :=
  let p := get_params r in
  if negb (truthy (text p)) then
    (json_error 400 (lit "Missing 'text' parameter"), w)
  else
    let stats' :=
      save_stats (stats_readable e) (stats_write e) (usage_mode r)
                 (stats_file w) in
    match list_voices e with
    | None =>
        (json_error 500 (lit "TTS Engine unavailable"),
         {| stats_file := stats'; scratch := scratch w |})
    | Some all_voices =>
        let selected_voice :=
          select_voice all_voices (voice_param p) (lang p) (gender_param p)
                       (country p) (randbelow e) in
        let '(resp, fs) :=
          synthesize e (default [] (text p)) selected_voice (rate p)
                     (scratch w) in
        (resp, {| stats_file := stats'; scratch := fs |})
    end.

End Resolver.

End Tts.

Import Tts.

(** ** Vocabulary of the statements

    Definitions the theorems are stated with.  [strip_trailing] follows
    the wording "strip a trailing marker" and is compared with what
    [parse_voice] computes; the rest are predicates on the model and
    record updates. *)

Module Statements.

(** [hay] ends with [suf]. *)
Definition endswith (suf hay : str) : bool :=
  startswith (rev suf) (rev hay).

(** "Strip a trailing marker": drop [marker] once from the end of [s]
    when [s] ends with it, and leave anything before the end alone. *)
Definition strip_trailing (marker s : str) : str :=
  if endswith marker s then take (length s - length marker)%nat s else s.


(** The regional-indicator symbol of an uppercase letter: the code point
    of the symbol for [A] plus the letter's offset from [A]. *)
Definition regional_indicator (letter : Z) : Z := 127462 + (letter - 65).

Definition is_upper (c : Z) : Prop := 65 <= c <= 90.

(** The separator [sep] does not occur in [s]. *)
Definition no_sep (sep : Z) (s : str) : Prop := Forall (fun c => c <> sep) s.

(** The record is a [dict] whose three counters are the integers
    [t], [a] and [u]. *)
Definition holds_counters (j : json) (t a u : Z) : Prop :=
  exists d, j = JDict d /\
    dict_get (lit "total") d = Some (JInt t) /\
    dict_get (lit "api") d = Some (JInt a) /\
    dict_get (lit "ui") d = Some (JInt u).

(** [e] with the two outcomes of the stats file's I/O replaced. *)
Definition with_stats_io (e : env) (readable : bool) (wr : write_outcome)
    : env :=
  {| stats_readable := readable;
     stats_write := wr;
     list_voices := list_voices e;
     randbelow := randbelow e;
     named_temporary_file := named_temporary_file e;
     communicate_save := communicate_save e;
     read_error := read_error e;
     remove_error := remove_error e |}.


Definition with_form (r : request) (f : multidict) : request :=
  {| args := args r; form := f; referrer := referrer r; host := host r |}.

End Statements.

Import Statements.

(** ** Concrete inputs *)

Module Samples.

Definition aria : raw_voice :=
  {| ShortName := lit "en-US-AriaNeural";
     FriendlyName :=
       Some (lit "Microsoft Aria Online (Natural) - English (United States)");
     Gender := lit "Female";
     Locale := lit "en-US" |}.

Definition guy : raw_voice :=
  {| ShortName := lit "en-US-GuyNeural";
     FriendlyName :=
       Some (lit "Microsoft Guy Online (Natural) - English (United States)");
     Gender := lit "Male";
     Locale := lit "en-US" |}.

Definition denise : raw_voice :=
  {| ShortName := lit "fr-FR-DeniseNeural";
     FriendlyName :=
       Some (lit "Microsoft Denise Online (Natural) - French (France)");
     Gender := lit "Female";
     Locale := lit "fr-FR" |}.

Definition catalog : list raw_voice := [guy; denise; aria].

Definition mp3 : bytes := [Byte.x49; Byte.x44; Byte.x33].

(** An engine that lists [catalog] and renders [mp3]; no I/O fails. *)
Definition healthy : env :=
  {| stats_readable := true;
     stats_write := WriteOk;
     list_voices := Some catalog;
     randbelow := 0;
     named_temporary_file := inl (lit "/tmp/tmpab12cd34.mp3");
     communicate_save := fun _ _ _ => Rendered mp3;
     read_error := None;
     remove_error := None |}.

(** The same, but rendering raises before any audio is written. *)
Definition render_fails : env :=
  {| stats_readable := true;
     stats_write := WriteOk;
     list_voices := Some catalog;
     randbelow := 0;
     named_temporary_file := inl (lit "/tmp/tmpab12cd34.mp3");
     communicate_save :=
       fun _ _ _ => RenderError (lit "No audio was received.") [];
     read_error := None;
     remove_error := None |}.

(** [GET /tts?text=Hello] from an outside caller. *)
Definition get_hello : request :=
  {| args := [(lit "text", lit "Hello")];
     form := [];
     referrer := None;
     host := lit "localhost:8080" |}.

(** [POST /tts] whose form body carries every parameter. *)
Definition post_form_only : request :=
  {| args := [];
     form := [(lit "text", lit "Hello"); (lit "voice", lit "Guy");
              (lit "lang", lit "fr"); (lit "gender", lit "Female");
              (lit "country", lit "FR"); (lit "rate", lit "+50%")];
     referrer := None;
     host := lit "localhost:8080" |}.

(** The same six parameters in the query string. *)
Definition get_query_only : request :=
  {| args := [(lit "text", lit "Hello"); (lit "voice", lit "Guy");
              (lit "lang", lit "fr"); (lit "gender", lit "Female");
              (lit "country", lit "FR"); (lit "rate", lit "+50%")];
     form := [];
     referrer := None;
     host := lit "localhost:8080" |}.

Definition empty_world : world :=
  {| stats_file := None; scratch := ∅ |}.

End Samples.

(** ** The pages: [root], [gallery], [languages] and the admin routes *)

Module Site.

(** [a < b] on [str]: code point by code point, a proper prefix first. *)
Fixpoint str_ltb (a b : str) : bool :=
  match a, b with
  | _, [] => false
  | [], _ :: _ => true
  | x :: a', y :: b' => (x <? y) || ((x =? y) && str_ltb a' b')
  end.

Section SortedBy.

Context {A : Type} (key : A -> str).

(** [sorted(xs, key=key)] is a stable sort that compares keys with [<]
    alone; a stable sort has one possible result, computed here by
    insertion.  [x] stood before every element of [l] and goes in front
    of the first element whose key is not below its own. *)
Fixpoint insert_by (x : A) (l : list A) : list A :=
  match l with
  | [] => [x]
  | y :: l' =>
      if str_ltb (key y) (key x) then y :: insert_by x l' else x :: y :: l'
  end.

Definition sorted_by (xs : list A) : list A := foldr insert_by [] xs.

End SortedBy.

(** What a route hands to [render_template]. *)
Inductive context :=
| NoContext
| VoicesCtx (voices : list voice)
| LanguagesCtx (languages : list voice)
| StatsCtx (stats : json).

Inductive page :=
| Template (file : str) (ctx : context)
| Redirect (endpoint : str)
| Text (s : str).

(** The session cookie: this application only ever stores [True]. *)
Abbreviation session := (gmap str bool).

(** [bool(session.get(k))] *)
Definition session_get (s : session) (k : str) : bool := default false (s !! k).

(** [root()]; [listing] is the result of [edge_tts.list_voices()], or the
    text of the exception it raises. *)
Definition root (s : session) (listing : list raw_voice + str) : page :=
  if negb (session_get s (lit "verified_user")) then
    Template (lit "security.html") NoContext
  else
    match listing with
    | inl raw_voices =>
        let raw_voices := sorted_by Locale raw_voices in
        let voices := map parse_voice raw_voices in
        Template (lit "generator.html") (VoicesCtx voices)
    | inr e => Text (lit "System Error: " ++ e)
    end.

(** [verify_security()] *)
Definition verify_security (s : session) : session * page :=
  (<[lit "verified_user" := true]> s, Redirect (lit "root")).

(** [gallery()] *)
Definition gallery (listing : list raw_voice + str) : page :=
  match listing with
  | inl raw_voices =>
      Template (lit "voices.html") (VoicesCtx (map parse_voice raw_voices))
  | inr e => Text (lit "Error loading voices: " ++ e)
  end.

(** [k in unique] for the insertion-ordered [dict] of [languages()]. *)
Fixpoint has_key (k : str) (unique : list (str * voice)) : bool :=
  match unique with
  | [] => false
  | (k', _) :: rest => str_eqb k k' || has_key k rest
  end.

(** The body of [for d in data]. *)
Definition unique_step (unique : list (str * voice)) (d : voice)
    : list (str * voice) :=
  if negb (has_key (locale d) unique)
  then unique ++ [(locale d, d)]
  else unique.

Definition unique_loop (data : list voice) (unique : list (str * voice))
    : list (str * voice) :=
  fold_left unique_step data unique.

(** [languages()] *)
Definition languages (listing : list raw_voice + str) : page :=
  match listing with
  | inl raw_voices =>
      let data := map parse_voice raw_voices in
      let unique := unique_loop data [] in
      let sorted_langs := sorted_by locale (map snd unique) in
      Template (lit "languages.html") (LanguagesCtx sorted_langs)
  | inr e => Text (lit "Error loading languages: " ++ e)
  end.

(** [apidocs()] *)
Definition apidocs : page := Template (lit "apidocs.html") NoContext.

Inductive http_method := GET | POST.

(** [admin_login()] *)
Definition admin_login (method : http_method) (form : multidict)
    (s : session) : session * page :=
  match method with
  | POST =>
      let u := md_get (lit "username") form in
      let p := md_get (lit "password") form in
      if bool_decide (u = Some (lit "Spidey")) &&
         bool_decide (p = Some (lit "Admin_734401"))
      then (<[lit "admin_logged_in" := true]> s, Redirect (lit "admin_panel"))
      else (s, Template (lit "admin_login.html") NoContext)
  | GET => (s, Template (lit "admin_login.html") NoContext)
  end.

(** [admin_panel()]; the stats file is read as in [load_stats]. *)
Definition admin_panel (s : session) (readable : bool)
    (f : option content) : page :=
  if negb (session_get s (lit "admin_logged_in")) then
    Redirect (lit "admin_login")
  else
    Template (lit "admin_panel.html") (StatsCtx (load_stats readable f)).

(** [logout()] *)
Definition logout (s : session) : session * page :=
  (delete (lit "admin_logged_in") s, Redirect (lit "root")).

End Site.

Import Site.

(** ** Further vocabulary *)

Module Vocabulary.

(** [a <= b] on [str]. *)
Definition str_le (a b : str) : Prop := str_ltb b a = false.

(** The stats file after one completed request per element of [modes]. *)
Definition increments (modes : list str) (f : option content)
    : option content :=
  fold_left (fun f mode => save_stats true WriteOk mode f) modes f.

Definition count_api (modes : list str) : Z :=
  Z.of_nat (length (List.filter (fun m => str_eqb m (lit "API")) modes)).

Definition is_regional_indicator (c : Z) : Prop := 127462 <= c <= 127487.

(** A code point of a Python [str]. *)
Definition is_code_point (c : Z) : Prop := 0 <= c < 1114112.

(** The key of the counter that [save_stats(mode)] increments. *)
Definition mode_key (mode : str) : str :=
  if str_eqb mode (lit "API") then lit "api" else lit "ui".

(** [v] is the first entry of [raw_voices] with its [Locale]. *)
Definition first_of_locale (raw_voices : list raw_voice) (v : raw_voice)
    : Prop :=
  exists before after,
    raw_voices = before ++ v :: after /\
    Forall (fun u => Locale u <> Locale v) before.

(** The voices handed to a template, if any. *)
Definition listed (p : page) : list voice :=
  match p with
  | Template _ (VoicesCtx l) => l
  | Template _ (LanguagesCtx l) => l
  | _ => []
  end.

(** [granted method form]: the request is a [POST] whose form carries
    the two hard-coded credentials. *)
Definition granted (method : http_method) (form : multidict) : Prop :=
  method = POST /\
  md_get (lit "username") form = Some (lit "Spidey") /\
  md_get (lit "password") form = Some (lit "Admin_734401").

End Vocabulary.

Import Vocabulary.

(** * Theorems *)

(** ** Running the string model *)

Example split_example :
  split (lit "-") (lit "zh-CN-liaoning-XiaobeiNeural")
  = [lit "zh"; lit "CN"; lit "liaoning"; lit "XiaobeiNeural"].
Proof. reflexivity. Qed.

Example split_sep3_example :
  split (lit " - ") (lit "Microsoft Aria Online (Natural) - English (United States)")
  = [lit "Microsoft Aria Online (Natural)"; lit "English (United States)"].
Proof. reflexivity. Qed.

Example replace_example :
  replace (lit "Neural") [] (lit "NeuralAriaNeural") = lit "Aria".
Proof. reflexivity. Qed.

Example strip_example :
  strip (ascii_lower (lit "  Aria Neural ")) = lit "aria neural".
Proof. reflexivity. Qed.

Example strip_trailing_example :
  strip_trailing (lit "Neural") (lit "NeuralAriaNeural") = lit "NeuralAria".
Proof. reflexivity. Qed.

(** ** Splitting on a one-character separator *)

Section SplitOne.

Variable sep : Z.

Lemma split_nonempty (s : str) : split [sep] s <> [].
Proof.
  unfold split. induction s as [|c s IH]; simpl; [discriminate|].
  destruct (sep =? c); simpl; [discriminate|].
  destruct (split_go [sep] 0 s); [contradiction | discriminate].
Qed.

Lemma split_cons_sep (s : str) : split [sep] (sep :: s) = [] :: split [sep] s.
Proof. unfold split. simpl. by rewrite Z.eqb_refl. Qed.

Lemma split_cons_other (c : Z) (s : str) :
  c <> sep ->
  exists seg rest, split [sep] s = seg :: rest /\
                   split [sep] (c :: s) = (c :: seg) :: rest.
Proof.
  intros Hc. pose proof (split_nonempty s) as Hne.
  unfold split in *. simpl.
  destruct (Z.eqb_spec sep c) as [->|_]; [contradiction|]. simpl.
  destruct (split_go [sep] 0 s) as [|seg rest]; [contradiction|].
  by exists seg, rest.
Qed.

(** A string without the separator is its own single segment. *)
Lemma split_no_sep (s : str) : no_sep sep s -> split [sep] s = [s].
Proof.
  induction 1 as [|c s Hc _ IH]; [reflexivity|].
  destruct (split_cons_other c s Hc) as (seg & rest & Hs & ->).
  rewrite IH in Hs. by inversion Hs.
Qed.

(** Splitting distributes over a separator in the middle. *)
Lemma split_app (a b : str) :
  split [sep] (a ++ sep :: b) = split [sep] a ++ split [sep] b.
Proof.
  induction a as [|c a IH]; simpl.
  - by rewrite split_cons_sep.
  - destruct (Z.eq_dec c sep) as [->|Hc].
    + by rewrite !split_cons_sep, IH.
    + destruct (split_cons_other c (a ++ sep :: b) Hc)
        as (seg & rest & Hs & ->).
      destruct (split_cons_other c a Hc) as (seg' & rest' & Hs' & ->).
      rewrite IH, Hs' in Hs. simpl in Hs. by inversion Hs.
Qed.

Lemma last_part_app (xs ys : list str) :
  ys <> [] -> last_part (xs ++ ys) = last_part ys.
Proof.
  intros Hys. unfold last_part.
  induction xs as [|x xs IH]; [reflexivity|].
  simpl. rewrite IH. destruct (xs ++ ys) eqn:E; [|reflexivity].
  apply app_eq_nil in E as [_ ->]. contradiction.
Qed.

Lemma contains_sep (a b : str) : contains [sep] (a ++ sep :: b) = true.
Proof.
  induction a as [|c a IH]; simpl.
  - by rewrite Z.eqb_refl.
  - rewrite IH. apply orb_true_r.
Qed.

Lemma contains_false_no_sep (s : str) :
  contains [sep] s = false -> no_sep sep s.
Proof.
  induction s as [|c s IH]; simpl; intros H; [constructor|].
  apply orb_false_iff in H as [H1 H2].
  rewrite andb_true_r in H1. apply Z.eqb_neq in H1.
  constructor; [congruence | by apply IH].
Qed.

End SplitOne.

(** ** The flag glyph *)

Lemma flag_of_region (p : str) (y1 y2 : Z) :
  y1 <> 45 -> y2 <> 45 ->
  last_part (split (lit "-") (p ++ lit "-" ++ [y1; y2])) = [y1; y2].
Proof.
  intros H1 H2. change (lit "-") with [45]. simpl.
  rewrite split_app, last_part_app by apply split_nonempty.
  rewrite split_no_sep; [reflexivity|].
  by repeat constructor.
Qed.

Lemma chr_in_range (n : Z) : 0 <= n < 1114112 -> chr n = Some n.
Proof.
  intros H. unfold chr.
  destruct (Z.leb_spec 0 n); [|lia]. destruct (Z.ltb_spec n 1114112); [|lia].
  reflexivity.
Qed.

(** C4 (counterexample): with a one-letter region code the derivation
    raises [IndexError], and the [except] branch returns the white flag
    U+1F3F3 U+FE0F, which is not the globe U+1F310. *)
Lemma flag_short_region_is_not_globe :
  get_flag_emoji (lit "en-U") = white_flag /\ get_flag_emoji (lit "en-U") <> globe.
Proof. split; [reflexivity | discriminate]. Qed.

(** C4 (amended): [get_flag_emoji] is a total function.  For a locale
    [p-YY] with [Y], [Y] uppercase letters it returns the two regional
    indicator symbols of the letters; for a locale without [-] it returns
    the globe; when the derivation raises (the text after the last [-] has
    fewer than two code points, or [chr] is out of range) it returns the
    white flag. *)
Theorem flag_glyph_cases :
  (forall (p : str) (y1 y2 : Z),
      is_upper y1 -> is_upper y2 ->
      get_flag_emoji (p ++ lit "-" ++ [y1; y2])
      = [regional_indicator y1; regional_indicator y2]) /\
  (forall locale : str,
      contains (lit "-") locale = false -> get_flag_emoji locale = globe) /\
  (forall locale : str,
      contains (lit "-") locale = true ->
      (length (last_part (split (lit "-") locale)) < 2)%nat ->
      get_flag_emoji locale = white_flag) /\
  (forall (locale : str) (c0 c1 : Z) (rest : str),
      contains (lit "-") locale = true ->
      last_part (split (lit "-") locale) = c0 :: c1 :: rest ->
      chr (c0 + 127397) = None \/ chr (c1 + 127397) = None ->
      get_flag_emoji locale = white_flag).
Proof.
  repeat split.
  - intros p y1 y2 [? ?] [? ?]. unfold get_flag_emoji.
    change (lit "-" ++ [y1; y2]) with (45 :: [y1; y2]).
    change (contains (lit "-")) with (contains [45]).
    rewrite contains_sep.
    change (45 :: [y1; y2]) with (lit "-" ++ [y1; y2]).
    rewrite flag_of_region by lia.
    rewrite !chr_in_range by lia.
    unfold regional_indicator. f_equal; [lia | f_equal; lia].
  - intros locale H. unfold get_flag_emoji. by rewrite H.
  - intros locale H Hlen. unfold get_flag_emoji. rewrite H.
    destruct (last_part _) as [|c0 [|c1 rest]]; simpl in Hlen;
      [reflexivity | reflexivity | lia].
  - intros locale c0 c1 rest H Hcode Hchr. unfold get_flag_emoji.
    rewrite H, Hcode.
    destruct Hchr as [-> | ->]; [reflexivity|].
    by destruct (chr (c0 + 127397)).
Qed.

Lemma flag_glyph_cases_witness :
  get_flag_emoji (lit "en" ++ lit "-" ++ [85; 83])
  = [regional_indicator 85; regional_indicator 83].
Proof. apply (proj1 flag_glyph_cases); unfold is_upper; lia. Defined.

(** ** The display name *)

(** "Neural" cannot start inside [s] and run over into a following
    "Neural": the letter [N] occurs in it only in first place. *)
Lemma neural_no_overlap (s : str) :
  s <> [] ->
  startswith (lit "Neural") (s ++ lit "Neural") = true ->
  startswith (lit "Neural") s = true.
Proof.
  intros Hne H.
  destruct s as [|c1 [|c2 [|c3 [|c4 [|c5 [|c6 s]]]]]]; [done|..];
    cbn in H |- *;
    repeat (apply andb_true_iff in H as [?%Z.eqb_eq H]); subst;
    try discriminate; reflexivity.
Qed.

Lemma replace_neural_suffix (nm : str) :
  contains (lit "Neural") nm = false ->
  replace (lit "Neural") [] (nm ++ lit "Neural") = nm.
Proof.
  unfold replace. induction nm as [|c nm IH]; intros H; [reflexivity|].
  cbn [contains] in H. apply orb_false_iff in H as [Hhd Htl].
  cbn [app replace_go].
  destruct (startswith (lit "Neural") (c :: nm ++ lit "Neural")) eqn:E.
  - apply (neural_no_overlap (c :: nm)) in E; [congruence | discriminate].
  - f_equal. by apply IH.
Qed.

(** C8 (counterexample): "Neural" is removed wherever it occurs in the
    third segment, not only at its end; for [en-US-NeuralAriaNeural] the
    name is [Aria], while stripping the trailing marker gives
    [NeuralAria]. *)
Lemma display_name_strips_inner_marker :
  let v := {| ShortName := lit "en-US-NeuralAriaNeural";
              FriendlyName := None;
              Gender := lit "Female";
              Locale := lit "en-US" |} in
  name (parse_voice v) = lit "Aria" /\
  strip_trailing (lit "Neural") (nth 2 (split (lit "-") (ShortName v)) [])
  = lit "NeuralAria" /\
  name (parse_voice v)
  <> strip_trailing (lit "Neural") (nth 2 (split (lit "-") (ShortName v)) []).
Proof. repeat split; discriminate. Qed.

(** C8 (amended): the display name is the third [-]-separated segment of
    the id with every occurrence of "Neural" removed when the id has more
    than two segments, and the id itself otherwise; for an id
    [vendor-locale-NameNeural] whose three parts contain no [-] and whose
    [Name] does not contain "Neural", it is [Name]. *)
Theorem display_name_cases :
  (forall v : raw_voice,
      let parts := split (lit "-") (ShortName v) in
      ((2 < length parts)%nat ->
       name (parse_voice v) = replace (lit "Neural") [] (nth 2 parts [])) /\
      ((length parts <= 2)%nat -> name (parse_voice v) = ShortName v)) /\
  (forall (v : raw_voice) (vendor loc nm : str),
      ShortName v = vendor ++ lit "-" ++ loc ++ lit "-" ++ nm ++ lit "Neural" ->
      no_sep 45 vendor -> no_sep 45 loc -> no_sep 45 nm ->
      contains (lit "Neural") nm = false ->
      name (parse_voice v) = nm /\
      name (parse_voice v)
      = strip_trailing (lit "Neural") (nth 2 (split (lit "-") (ShortName v)) [])).
Proof.
  split.
  - intros v parts. unfold parse_voice. cbn [name]. fold parts. split; intros H.
    + by destruct (Nat.ltb_spec 2 (length parts)); [|lia].
    + by destruct (Nat.ltb_spec 2 (length parts)); [lia|].
  - intros v vendor loc nm Hid Hv Hl Hn Hnm.
    assert (Hparts : split (lit "-") (ShortName v)
                     = [vendor; loc; nm ++ lit "Neural"]).
    { rewrite Hid. change (lit "-") with [45]. simpl.
      rewrite !split_app, !split_no_sep; try done.
      apply Forall_app; split; [done|]. by repeat constructor. }
    unfold parse_voice. cbn [name]. rewrite Hparts. cbn [length nth].
    change (2 <? 3)%nat with true. cbn match.
    rewrite replace_neural_suffix by done. split; [reflexivity|].
    unfold strip_trailing, endswith.
    rewrite rev_app_distr, length_app.
    change (rev (lit "Neural")) with [108; 97; 114; 117; 101; 78].
    cbn [app startswith]. rewrite !Z.eqb_refl. cbn [andb].
    rewrite Nat.add_sub. by rewrite take_app_length.
Qed.

Lemma display_name_cases_witness :
  let v := {| ShortName := lit "en-US-AriaNeural";
              FriendlyName := Some (lit "Microsoft Aria Online (Natural) - English (United States)");
              Gender := lit "Female";
              Locale := lit "en-US" |} in
  name (parse_voice v) = lit "Aria".
Proof.
  intros v.
  refine (proj1 (proj2 display_name_cases v (lit "en") (lit "US") (lit "Aria")
                   eq_refl _ _ _ eq_refl));
    unfold no_sep; repeat constructor; discriminate.
Defined.

(** ** The usage counters *)

Lemma str_eqb_eq (a b : str) : str_eqb a b = true <-> a = b.
Proof. unfold str_eqb. apply bool_decide_eq_true. Qed.

Lemma str_eqb_neq (a b : str) : str_eqb a b = false <-> a <> b.
Proof. unfold str_eqb. apply bool_decide_eq_false. Qed.

Lemma dict_get_set_same (k : str) (v : json) (d : dict) :
  dict_get k (dict_set k v d) = Some v.
Proof.
  induction d as [|[k' v'] d IH]; simpl.
  - by rewrite (proj2 (str_eqb_eq k k)).
  - destruct (str_eqb k k') eqn:E; simpl; rewrite E; [reflexivity | exact IH].
Qed.

Lemma dict_get_set_other (k k0 : str) (v : json) (d : dict) :
  k0 <> k -> dict_get k0 (dict_set k v d) = dict_get k0 d.
Proof.
  intros Hne. induction d as [|[k' v'] d IH]; simpl.
  - by rewrite (proj2 (str_eqb_neq k0 k)).
  - destruct (str_eqb k k') eqn:E; simpl.
    + apply str_eqb_eq in E as <-. by rewrite (proj2 (str_eqb_neq k0 k)).
    + by rewrite IH.
Qed.

(** [stats[k] += 1] on a record whose [k] is the integer [z]. *)
Lemma incr_int (k : str) (d : dict) (z : Z) :
  dict_get k d = Some (JInt z) ->
  incr k (JDict d) = Some (JDict (dict_set k (JInt (z + 1)) d)).
Proof. intros H. unfold incr. by rewrite H. Qed.

Lemma mode_key_cases (mode : str) :
  (mode = lit "API" /\
   (if str_eqb mode (lit "API") then lit "api" else lit "ui") = lit "api") \/
  (mode <> lit "API" /\
   (if str_eqb mode (lit "API") then lit "api" else lit "ui") = lit "ui").
Proof.
  destruct (str_eqb mode (lit "API")) eqn:E.
  - left. by apply str_eqb_eq in E.
  - right. by apply str_eqb_neq in E.
Qed.

Ltac dict_simpl :=
  repeat (rewrite dict_get_set_same ||
          rewrite dict_get_set_other by (cbv; discriminate)).

(** One increment on a record of integer counters, up to the write. *)
Lemma incr_counters (mode : str) (j : json) (t a u : Z) :
  holds_counters j t a u ->
  exists j1 j2,
    incr (lit "total") j = Some j1 /\
    incr (if str_eqb mode (lit "API") then lit "api" else lit "ui") j1
    = Some j2 /\
    holds_counters j2 (t + 1)
      (if str_eqb mode (lit "API") then a + 1 else a)
      (if str_eqb mode (lit "API") then u else u + 1).
Proof.
  intros (d & -> & Ht & Ha & Hu).
  destruct (str_eqb mode (lit "API"));
    eexists _, _; (split; [by apply incr_int|]); split.
  - apply incr_int. by dict_simpl.
  - eexists. split; [reflexivity|]. by dict_simpl.
  - apply incr_int. by dict_simpl.
  - eexists. split; [reflexivity|]. by dict_simpl.
Qed.

Lemma holds_counters_zero : holds_counters zero_stats 0 0 0.
Proof. by eexists. Qed.

(** When the stats file is absent, cut short or otherwise unreadable,
    [load_stats] gives the zero record. *)
Lemma load_stats_fallback (readable : bool) (f : option content) :
  f = None \/ f = Some Junk \/ (exists j n, f = Some (Torn j n)) \/
  readable = false ->
  load_stats readable f = zero_stats.
Proof.
  intros [-> | [-> | [(j & n & ->) | ->]]]; try reflexivity.
  by destruct f as [[]|].
Qed.

(** C3: from a persisted record with [total = api + ui] (or from the zero
    record that stands in for an absent or corrupt file), an increment
    whose write succeeds completes, and every completed increment stores a
    record with [total + 1], one more in the field of its mode and the
    other field as it was, so that [total = api + ui] again; a [UI] then
    an [API] increment from zero store [{total: 2, api: 1, ui: 1}]. *)
Theorem increment_keeps_total :
  (forall (readable : bool) (wr : write_outcome) (mode : str)
          (f : option content) (t a u : Z),
      holds_counters (load_stats readable f) t a u ->
      t = a + u ->
      let a' := if str_eqb mode (lit "API") then a + 1 else a in
      let u' := if str_eqb mode (lit "API") then u else u + 1 in
      (wr = WriteOk -> snd (save_stats_try readable wr mode f) = true) /\
      (forall f', save_stats_try readable wr mode f = (f', true) ->
         save_stats readable wr mode f = f' /\
         exists j', f' = Some (Doc j') /\
           holds_counters j' (t + 1) a' u' /\
           t + 1 = a' + u' /\
           a' + u' = a + u + 1)) /\
  (forall (readable : bool) (f : option content),
      f = None \/ f = Some Junk \/ (exists j n, f = Some (Torn j n)) \/
      readable = false ->
      holds_counters (load_stats readable f) 0 0 0) /\
  save_stats true WriteOk (lit "API")
    (save_stats true WriteOk (lit "UI") (Some (Doc (counters 0 0 0))))
  = Some (Doc (counters 2 1 1)).
Proof.
  split; [|split; [|reflexivity]].
  - intros readable wr mode f t a u Hc Hinv a' u'.
    destruct (incr_counters mode _ t a u Hc) as (j1 & j2 & H1 & H2 & Hc2).
    unfold save_stats, save_stats_try. rewrite H1, H2. split.
    + by intros ->.
    + intros f' Hf'. destruct wr; inversion Hf'; subst f'.
      split; [reflexivity|]. exists j2. split; [reflexivity|].
      split; [exact Hc2|]. subst a' u'.
      destruct (str_eqb mode (lit "API")); lia.
  - intros readable f Hf. rewrite load_stats_fallback by done.
    apply holds_counters_zero.
Qed.

Lemma increment_keeps_total_witness :
  holds_counters (load_stats true (Some (Doc (counters 4 3 1)))) 4 3 1 /\
  4 = 3 + 1 /\
  snd (save_stats_try true WriteOk (lit "UI") (Some (Doc (counters 4 3 1))))
  = true.
Proof.
  assert (Hc : holds_counters (load_stats true (Some (Doc (counters 4 3 1))))
                 4 3 1) by (by eexists).
  split; [exact Hc|]. split; [reflexivity|].
  exact (proj1 (proj1 increment_keeps_total true WriteOk (lit "UI")
                  (Some (Doc (counters 4 3 1))) 4 3 1 Hc eq_refl) eq_refl).
Defined.

(** C5 (counterexample): when the write raises after [open] has truncated
    the file, the increment fails and the store no longer holds the prior
    record. *)
Lemma failed_write_truncates_store :
  let prior := Some (Doc (counters 1 1 0)) in
  snd (save_stats_try true (DumpFails 0) (lit "API") prior) = false /\
  save_stats true (DumpFails 0) (lit "API") prior
  = Some (Torn (counters 2 2 0) 0) /\
  save_stats true (DumpFails 0) (lit "API") prior <> prior.
Proof. repeat split; discriminate. Qed.

Lemma tts_api_ignores_stats (lower : str -> str) (e : env) (r : request)
    (readable : bool) (wr : write_outcome) (f f' : option content)
    (fs : gmap str bytes) :
  let out := tts_api lower (with_stats_io e readable wr) r
               {| stats_file := f; scratch := fs |} in
  let out' := tts_api lower e r {| stats_file := f'; scratch := fs |} in
  fst out = fst out' /\ scratch (snd out) = scratch (snd out').
Proof.
  unfold tts_api. cbn [scratch stats_file].
  destruct (negb (truthy (text (get_params r)))); [done|].
  cbn [with_stats_io list_voices randbelow].
  destruct (list_voices e) as [vs|]; [|done].
  change (synthesize (with_stats_io e readable wr))
    with (synthesize e).
  by destruct (synthesize e _ _ _ fs).
Qed.

Lemma save_stats_try_stages (readable : bool) (wr : write_outcome)
    (mode : str) (f : option content) :
  (snd (save_stats_try readable WriteOk mode f) = false /\
   save_stats_try readable wr mode f = (f, false)) \/
  (exists j',
      save_stats_try readable WriteOk mode f = (Some (Doc j'), true) /\
      save_stats_try readable wr mode f
      = match wr with
        | WriteOk => (Some (Doc j'), true)
        | OpenFails => (f, false)
        | DumpFails n =>
            (Some (if (n <? length (dumps j'))%nat then Torn j' n else Doc j'),
             false)
        end).
Proof.
  unfold save_stats_try.
  destruct (incr (lit "total") _) as [j1|]; [|by left].
  destruct (incr _ j1) as [j2|]; [|by left].
  right. exists j2. split; [reflexivity|]. by destruct wr.
Qed.

Lemma torn_text_below (j : json) (n : nat) :
  (n < length (dumps j))%nat ->
  torn_text j n = take n (dumps j) /\ torn_text j n <> dumps j.
Proof.
  intros Hn. unfold torn_text.
  rewrite Nat.min_l by lia. split; [reflexivity|].
  intros H. apply (f_equal length) in H. rewrite length_take in H. lia.
Qed.

(** C5 (amended): no failure of an increment reaches the caller, and the
    response of [/tts] and the other files do not depend on the stats
    file or on its I/O.  When the load-and-increment step raises (the
    loaded record lacks a counter or holds a non-number) or [open]
    raises, the stored state stays as it was.  When the write raises
    after the file was opened, the prior state is gone: the file holds
    the code points written so far of the new record, a strict prefix of
    it when the exception came before the last one, and the whole new
    record otherwise.  From a record of counters the new record is the one
    with [total + 1] and one more in the field of the mode. *)
Theorem failed_increment_effect :
  (forall (readable : bool) (wr : write_outcome) (mode : str)
          (f : option content),
      snd (save_stats_try readable WriteOk mode f) = false ->
      save_stats_try readable wr mode f = (f, false)) /\
  (forall (readable : bool) (mode : str) (f : option content) (j' : json),
      save_stats_try readable WriteOk mode f = (Some (Doc j'), true) ->
      save_stats_try readable OpenFails mode f = (f, false) /\
      (forall n, (n < length (dumps j'))%nat ->
         save_stats_try readable (DumpFails n) mode f
         = (Some (Torn j' n), false) /\
         torn_text j' n = take n (dumps j') /\
         torn_text j' n <> dumps j') /\
      (forall n, (length (dumps j') <= n)%nat ->
         save_stats_try readable (DumpFails n) mode f
         = (Some (Doc j'), false))) /\
  (forall (readable : bool) (mode : str) (f : option content) (t a u : Z),
      holds_counters (load_stats readable f) t a u ->
      exists j',
        save_stats_try readable WriteOk mode f = (Some (Doc j'), true) /\
        holds_counters j' (t + 1)
          (if str_eqb mode (lit "API") then a + 1 else a)
          (if str_eqb mode (lit "API") then u else u + 1)) /\
  (forall (readable : bool) (wr : write_outcome) (mode : str)
          (f : option content),
      snd (save_stats_try readable wr mode f) = false ->
      (forall n, wr <> DumpFails n) ->
      save_stats readable wr mode f = f) /\
  (forall (lower : str -> str) (e : env) (r : request)
          (readable : bool) (wr : write_outcome) (f f' : option content)
          (fs : gmap str bytes),
      let out := tts_api lower (with_stats_io e readable wr) r
                   {| stats_file := f; scratch := fs |} in
      let out' := tts_api lower e r {| stats_file := f'; scratch := fs |} in
      fst out = fst out' /\ scratch (snd out) = scratch (snd out')).
Proof.
  split; [|split; [|split; [|split; [|apply tts_api_ignores_stats]]]].
  - intros readable wr mode f Hraise.
    destruct (save_stats_try_stages readable wr mode f)
      as [[_ H] | (j' & Hok & _)]; [exact H|].
    rewrite Hok in Hraise. discriminate Hraise.
  - intros readable mode f j' Hok. split; [|split].
    + destruct (save_stats_try_stages readable OpenFails mode f)
        as [[_ H] | (j & _ & H)]; exact H.
    + intros n Hn.
      destruct (save_stats_try_stages readable (DumpFails n) mode f)
        as [[Hraise _] | (j & Hj & H)].
      * rewrite Hok in Hraise. discriminate Hraise.
      * rewrite Hok in Hj. injection Hj as <-. rewrite H.
        apply Nat.ltb_lt in Hn. rewrite Hn. split; [reflexivity|].
        apply torn_text_below. by apply Nat.ltb_lt.
    + intros n Hn.
      destruct (save_stats_try_stages readable (DumpFails n) mode f)
        as [[Hraise _] | (j & Hj & H)].
      * rewrite Hok in Hraise. discriminate Hraise.
      * rewrite Hok in Hj. injection Hj as <-. rewrite H.
        apply Nat.ltb_ge in Hn. by rewrite Hn.
  - intros readable mode f t a u Hc.
    destruct (incr_counters mode _ t a u Hc) as (j1 & j2 & H1 & H2 & Hc2).
    exists j2. split; [|exact Hc2].
    unfold save_stats_try. by rewrite H1, H2.
  - intros readable wr mode f Hfail Hwr. unfold save_stats.
    destruct (save_stats_try_stages readable wr mode f)
      as [[_ H] | (j & _ & H)]; rewrite H in Hfail |- *; [reflexivity|].
    destruct wr as [| |n]; [discriminate Hfail | reflexivity |].
    by destruct (Hwr n).
Qed.

Lemma failed_increment_effect_witness :
  save_stats_try true WriteOk (lit "API") (Some (Doc (counters 1 1 0)))
  = (Some (Doc (counters 2 2 0)), true) /\
  (5 < length (dumps (counters 2 2 0)))%nat /\
  save_stats_try true (DumpFails 5) (lit "API") (Some (Doc (counters 1 1 0)))
  = (Some (Torn (counters 2 2 0) 5), false) /\
  torn_text (counters 2 2 0) 5 = take 5 (dumps (counters 2 2 0)).
Proof.
  assert (Hok : save_stats_try true WriteOk (lit "API")
                  (Some (Doc (counters 1 1 0)))
                = (Some (Doc (counters 2 2 0)), true)) by reflexivity.
  assert (Hn : (5 < length (dumps (counters 2 2 0)))%nat)
    by (vm_compute; lia).
  split; [exact Hok|]. split; [exact Hn|].
  destruct (proj1 (proj2 (proj1 (proj2 failed_increment_effect) true
                            (lit "API") (Some (Doc (counters 1 1 0)))
                            (counters 2 2 0) Hok)) 5%nat Hn) as (H1 & H2 & _).
  by split.
Defined.

(** ** The handler: validation, parameters, the transient file *)

Lemma truthy_false (o : option str) :
  o = None \/ o = Some [] -> truthy o = false.
Proof. by intros [-> | ->]. Qed.

(** C6: when [text] is absent or empty, in the query string and in the form
    body alike, the response is 400 with body
    [{"error": "Missing 'text' parameter"}], and the stats file and the
    scratch directory are left as they were, whatever the write to the
    stats file would have done. *)
Theorem missing_text_is_400 (lower : str -> str) (e : env) (r : request)
    (w : world) :
  md_get (lit "text") (args r) = None \/ md_get (lit "text") (args r) = Some [] ->
  md_get (lit "text") (form r) = None \/ md_get (lit "text") (form r) = Some [] ->
  tts_api lower e r w = (json_error 400 (lit "Missing 'text' parameter"), w) /\
  status (fst (tts_api lower e r w)) = 400 /\
  payload (fst (tts_api lower e r w))
  = JsonBody [(lit "error", lit "Missing 'text' parameter")] /\
  stats_file (snd (tts_api lower e r w)) = stats_file w.
Proof.
  intros Ha Hf.
  assert (H : tts_api lower e r w
              = (json_error 400 (lit "Missing 'text' parameter"), w)).
  { unfold tts_api, get_params. cbn [text]. unfold py_or.
    rewrite (truthy_false _ Ha), (truthy_false _ Hf). reflexivity. }
  rewrite H. by repeat split.
Qed.

Lemma missing_text_is_400_witness :
  let r := {| args := [(lit "voice", lit "Aria"); (lit "text", [])];
              form := [];
              referrer := None;
              host := lit "localhost:8080" |} in
  tts_api ascii_lower Samples.healthy r Samples.empty_world
  = (json_error 400 (lit "Missing 'text' parameter"), Samples.empty_world).
Proof.
  intros r.
  apply (missing_text_is_400 ascii_lower Samples.healthy r Samples.empty_world).
  - right. reflexivity.
  - left. reflexivity.
Defined.

(** The parameters read from the query string alone never see the form. *)
Lemma query_only_parameters (r : request) (f : multidict) :
  let p := get_params r in
  let p' := get_params (with_form r f) in
  lang p' = lang p /\ gender_param p' = gender_param p /\
  country p' = country p /\ rate p' = rate p.
Proof. by repeat split. Qed.

(** C7: [text] and [voice] fall back to the form body, the other four
    parameters do not.  A [POST] whose form body carries all six gets the
    default rate and no [lang], [gender] or [country], where the same
    values in the query string are all taken; for no request does the
    form body change [lang], [gender], [country] or [rate]. *)
Theorem form_only_parameters_dropped :
  let p := get_params Samples.post_form_only in
  let q := get_params Samples.get_query_only in
  (text p = Some (lit "Hello") /\ voice_param p = Some (lit "Guy")) /\
  (lang p = None /\ gender_param p = None /\ country p = None /\
   rate p = lit "+0%") /\
  (text q = Some (lit "Hello") /\ voice_param q = Some (lit "Guy") /\
   lang q = Some (lit "fr") /\ gender_param q = Some (lit "Female") /\
   country q = Some (lit "FR") /\ rate q = lit "+50%") /\
  (forall (r : request) (f : multidict),
      lang (get_params (with_form r f)) = lang (get_params r) /\
      gender_param (get_params (with_form r f)) = gender_param (get_params r) /\
      country (get_params (with_form r f)) = country (get_params r) /\
      rate (get_params (with_form r f)) = rate (get_params r)).
Proof.
  intros p q. split; [by split|]. split; [by repeat split|].
  split; [by repeat split|].
  intros r f. apply query_only_parameters.
Qed.

Section TransientFile.

Variable lower : str -> str.
Variables (e : env) (r : request) (w : world).
Variables (all_voices : list raw_voice) (t_name : str).

Hypothesis has_text : truthy (text (get_params r)) = true.
Hypothesis voices_listed : list_voices e = Some all_voices.
Hypothesis file_created : named_temporary_file e = inl t_name.

Let selected_voice : str :=
  select_voice lower all_voices (voice_param (get_params r))
    (lang (get_params r)) (gender_param (get_params r))
    (country (get_params r)) (randbelow e).

Let the_text : str := default [] (text (get_params r)).

Lemma tts_api_reaches_synthesis :
  tts_api lower e r w
  = (fst (synthesize e the_text selected_voice (rate (get_params r))
            (scratch w)),
     {| stats_file :=
          save_stats (stats_readable e) (stats_write e) (usage_mode r)
            (stats_file w);
        scratch :=
          snd (synthesize e the_text selected_voice (rate (get_params r))
                 (scratch w)) |}).
Proof.
  unfold tts_api. rewrite has_text, voices_listed. cbn [negb].
  fold the_text selected_voice.
  by destruct (synthesize e the_text selected_voice _ _).
Qed.

(** On the path that returns the audio, the file is gone. *)
Lemma success_removes_tempfile (audio : bytes) :
  communicate_save e the_text selected_voice (rate (get_params r))
  = Rendered audio ->
  read_error e = None -> remove_error e = None ->
  fst (tts_api lower e r w) = audio_response audio selected_voice /\
  scratch (snd (tts_api lower e r w)) !! t_name = None.
Proof.
  intros Hsave Hread Hrm. rewrite tts_api_reaches_synthesis.
  unfold synthesize. rewrite file_created, Hsave, Hread, Hrm.
  cbn [fst snd scratch]. rewrite lookup_insert_eq, lookup_delete_eq. done.
Qed.

(** When rendering raises, the file stays. *)
Lemma render_error_keeps_tempfile (msg : str) (partial : bytes) :
  communicate_save e the_text selected_voice (rate (get_params r))
  = RenderError msg partial ->
  fst (tts_api lower e r w) = json_error 500 msg /\
  scratch (snd (tts_api lower e r w)) !! t_name = Some partial.
Proof.
  intros Hsave. rewrite tts_api_reaches_synthesis.
  unfold synthesize. rewrite file_created, Hsave.
  cbn [fst snd scratch]. by rewrite lookup_insert_eq.
Qed.

(** When reading the rendered file raises, the file stays. *)
Lemma read_error_keeps_tempfile (audio : bytes) (msg : str) :
  communicate_save e the_text selected_voice (rate (get_params r))
  = Rendered audio ->
  read_error e = Some msg ->
  fst (tts_api lower e r w) = json_error 500 msg /\
  scratch (snd (tts_api lower e r w)) !! t_name = Some audio.
Proof.
  intros Hsave Hread. rewrite tts_api_reaches_synthesis.
  unfold synthesize. rewrite file_created, Hsave, Hread.
  cbn [fst snd scratch]. by rewrite lookup_insert_eq.
Qed.

(** Once the file has been created, it is gone after the call exactly
    when the response is the audio. *)
Lemma tempfile_removed_iff_success :
  scratch (snd (tts_api lower e r w)) !! t_name = None <->
  status (fst (tts_api lower e r w)) = 200.
Proof.
  rewrite tts_api_reaches_synthesis. unfold synthesize.
  rewrite file_created. cbn [fst snd scratch].
  destruct (communicate_save e _ _ _) as [audio|msg partial];
    [destruct (read_error e); [|destruct (remove_error e)]|];
    cbn [fst snd status json_error audio_response];
    rewrite ?lookup_insert_eq, ?lookup_delete_eq; split; done.
Qed.

End TransientFile.

(** C1: at [GET /tts?text=Hello] with an engine whose rendering raises,
    the handler answers 500 and the transient file it created is still in
    the scratch directory; with a healthy engine the same request answers
    200 and the file is gone. *)
Theorem tempfile_leaks_on_render_error :
  let t_name := lit "/tmp/tmpab12cd34.mp3" in
  let failed :=
    tts_api ascii_lower Samples.render_fails Samples.get_hello
      Samples.empty_world in
  let served :=
    tts_api ascii_lower Samples.healthy Samples.get_hello
      Samples.empty_world in
  Samples.empty_world.(scratch) !! t_name = None /\
  fst failed = json_error 500 (lit "No audio was received.") /\
  scratch (snd failed) !! t_name = Some [] /\
  status (fst served) = 200 /\
  scratch (snd served) !! t_name = None.
Proof.
  intros t_name failed served.
  split; [apply lookup_empty|].
  destruct (render_error_keeps_tempfile ascii_lower Samples.render_fails
              Samples.get_hello Samples.empty_world Samples.catalog t_name
              eq_refl eq_refl eq_refl (lit "No audio was received.") []
              eq_refl) as [Hresp Hfile].
  destruct (success_removes_tempfile ascii_lower Samples.healthy
              Samples.get_hello Samples.empty_world Samples.catalog t_name
              eq_refl eq_refl eq_refl Samples.mp3 eq_refl eq_refl eq_refl)
    as [Hok Hgone].
  split; [exact Hresp|]. split; [exact Hfile|].
  split; [|exact Hgone]. fold served in Hok. by rewrite Hok.
Qed.

(** ** Voice selection *)

Section Selection.

Variable lower : str -> str.

(** The loop with [break] returns the first entry that matches, and the
    value it started from when none does. *)
Lemma smart_match_first (clean : str) (vs : list raw_voice) (init : str) :
  let hit v := contains clean (lower (ShortName v)) in
  (exists before v after,
      vs = before ++ v :: after /\
      Forall (fun u => hit u = false) before /\
      hit v = true /\
      smart_match lower clean vs init = ShortName v) \/
  (Forall (fun u => hit u = false) vs /\
   smart_match lower clean vs init = init).
Proof.
  intros hit. induction vs as [|v vs IH]; simpl.
  - right. by split.
  - destruct (contains clean (lower (ShortName v))) eqn:E.
    + left. exists [], v, vs. by repeat split.
    + destruct IH as [(before & v' & after & -> & Hb & Hv & Hr) | [Hall Hr]].
      * left. exists (v :: before), v', after. repeat split; try done.
        by constructor.
      * right. split; [by constructor | done].
Qed.

Lemma select_voice_explicit (vs : list raw_voice) (vp : str)
    (lang gender country : option str) (draw : nat) :
  vp <> [] ->
  select_voice lower vs (Some vp) lang gender country draw
  = smart_match lower (strip (replace (lit "neural") [] (lower vp))) vs
      default_voice.
Proof. intros Hvp. unfold select_voice. by destruct vp. Qed.

(** C2: for a non-empty [voice] parameter, the selected id is the
    [ShortName] of the first catalog entry, in fetched order, whose
    lowercased [ShortName] contains the parameter lowercased, with
    "neural" removed and whitespace trimmed; when no entry matches it is
    the default id.  The filters and the random draw play no part. *)
Theorem explicit_id_first_match (all_voices : list raw_voice) (vp : str)
    (lang gender country : option str) (draw : nat) :
  vp <> [] ->
  let clean := strip (replace (lit "neural") [] (lower vp)) in
  let hit v := contains clean (lower (ShortName v)) in
  let selected :=
    select_voice lower all_voices (Some vp) lang gender country draw in
  ((exists before v after,
       all_voices = before ++ v :: after /\
       Forall (fun u => hit u = false) before /\
       hit v = true /\
       selected = ShortName v) \/
   (Forall (fun u => hit u = false) all_voices /\
    selected = default_voice)) /\
  (forall lang' gender' country' draw',
      select_voice lower all_voices (Some vp) lang' gender' country' draw'
      = selected).
Proof.
  intros Hvp clean hit selected. subst selected.
  split.
  - rewrite select_voice_explicit by done.
    apply smart_match_first.
  - intros. by rewrite !select_voice_explicit.
Qed.

Lemma narrow_sub (x : option str) (keep : str -> raw_voice -> bool)
    (cands : list raw_voice) (v : raw_voice) :
  In v (narrow x keep cands) ->
  In v cands /\ (forall s, x = Some s -> s <> [] -> keep s v = true).
Proof.
  unfold narrow. destruct x as [[|c s]|]; cbn [truthy default].
  - intros H. split; [done|]. by intros s [= <-].
  - intros [H1 H2]%filter_In. split; [done|]. by intros s' [= <-].
  - intros H. split; [done|]. discriminate.
Qed.

Lemma choice_In (draw : nat) (seq : list raw_voice) (v : raw_voice) :
  choice draw seq = Some v -> In v seq.
Proof.
  unfold choice. intros H. apply list_elem_of_In.
  by eapply list_elem_of_lookup_2.
Qed.

Lemma choice_nonempty (draw : nat) (seq : list raw_voice) :
  seq <> [] -> is_Some (choice draw seq).
Proof.
  intros Hne. unfold choice. apply lookup_lt_is_Some.
  apply Nat.mod_upper_bound. by destruct seq.
Qed.

Lemma smart_match_In (clean : str) (vs : list raw_voice) (init : str) :
  smart_match lower clean vs init = init \/
  exists v, In v vs /\ ShortName v = smart_match lower clean vs init /\
            contains clean (lower (ShortName v)) = true.
Proof.
  induction vs as [|v vs IH]; simpl; [by left|].
  destruct (contains clean (lower (ShortName v))) eqn:E.
  - right. exists v. auto.
  - destruct IH as [IH | (v' & Hin & Hn & Hc)]; [by left|].
    right. exists v'. auto.
Qed.

(** C9: the selected id is the default id or the [ShortName] of a catalog
    entry.  In the filter branch (no [voice], some filter given) the id is
    the default when no entry passes, and otherwise the [ShortName] of an
    entry that passes every filter given: [Locale] starts with [lang],
    [Gender] equals [gender], the text after the last [-] of [Locale]
    equals [country], all compared in lower case. *)
Theorem selected_voice_from_catalog (all_voices : list raw_voice)
    (voice_param lang gender country : option str) (draw : nat) :
  let selected :=
    select_voice lower all_voices voice_param lang gender country draw in
  (selected = default_voice \/
   exists v, In v all_voices /\ ShortName v = selected) /\
  (truthy voice_param = false ->
   truthy lang || truthy gender || truthy country = true ->
   (filter_candidates lower all_voices lang gender country = [] /\
    selected = default_voice) \/
   (exists v, In v all_voices /\ ShortName v = selected /\
      (forall l, lang = Some l -> l <> [] ->
         startswith (lower l) (lower (Locale v)) = true) /\
      (forall g, gender = Some g -> g <> [] ->
         lower (Gender v) = lower g) /\
      (forall c, country = Some c -> c <> [] ->
         lower (last_part (split (lit "-") (Locale v))) = lower c))).
Proof.
  intros selected.
  assert (Hfilter :
    truthy voice_param = false ->
    truthy lang || truthy gender || truthy country = true ->
    (filter_candidates lower all_voices lang gender country = [] /\
     selected = default_voice) \/
    (exists v, In v all_voices /\ ShortName v = selected /\
       (forall l, lang = Some l -> l <> [] -> by_lang lower l v = true) /\
       (forall g, gender = Some g -> g <> [] -> by_gender lower g v = true) /\
       (forall c, country = Some c -> c <> [] ->
          by_country lower c v = true))).
  { intros Hvp Hany. subst selected. unfold select_voice.
    rewrite Hvp, Hany.
    destruct (filter_candidates lower all_voices lang gender country)
      as [|c0 cs] eqn:Hc.
    - left. split; [done|]. unfold choice. by rewrite lookup_nil.
    - right.
      destruct (choice_nonempty draw (c0 :: cs)) as [v Hv]; [done|].
      rewrite Hv. exists v. apply choice_In in Hv. rewrite <- Hc in Hv.
      unfold filter_candidates in Hv.
      apply narrow_sub in Hv as [Hv Hcountry].
      apply narrow_sub in Hv as [Hv Hgender].
      apply narrow_sub in Hv as [Hv Hlang].
      by repeat split. }
  split.
  - destruct (truthy voice_param) eqn:Hvp.
    + subst selected. unfold select_voice. rewrite Hvp.
      destruct (smart_match_In
                  (strip (replace (lit "neural") []
                            (lower (default [] voice_param))))
                  all_voices default_voice) as [H | (v & Hin & Hn & _)].
      * by left.
      * right. by exists v.
    + destruct (truthy lang || truthy gender || truthy country) eqn:Hany.
      * destruct (Hfilter eq_refl eq_refl) as [[_ H] | (v & Hin & Hn & _)].
        -- by left.
        -- right. by exists v.
      * left. subst selected. unfold select_voice. by rewrite Hvp, Hany.
  - intros Hvp Hany.
    destruct (Hfilter Hvp Hany)
      as [H | (v & Hin & Hn & Hl & Hg & Hc)]; [by left|].
    right. exists v. repeat split; try done.
    + intros g Hg1 Hg2. apply str_eqb_eq. by apply Hg.
    + intros c Hc1 Hc2. apply str_eqb_eq. by apply Hc.
Qed.






End Selection.

Lemma explicit_id_first_match_witness :
  lit "Aria" <> [] /\
  select_voice ascii_lower Samples.catalog (Some (lit "Aria"))
    (Some (lit "fr")) None None 0
  = select_voice ascii_lower Samples.catalog (Some (lit "Aria"))
      None None None 0.
Proof.
  split; [discriminate|].
  apply (proj2 (explicit_id_first_match ascii_lower Samples.catalog
                  (lit "Aria") None None None 0 ltac:(discriminate))).
Defined.

Lemma selected_voice_from_catalog_witness :
  let selected :=
    select_voice ascii_lower Samples.catalog None (Some (lit "EN"))
      (Some (lit "female")) None 0 in
  (filter_candidates ascii_lower Samples.catalog (Some (lit "EN"))
     (Some (lit "female")) None = [] /\
   selected = default_voice) \/
  (exists v, In v Samples.catalog /\ ShortName v = selected /\
     (forall l, Some (lit "EN") = Some l -> l <> [] ->
        startswith (ascii_lower l) (ascii_lower (Locale v)) = true) /\
     (forall g, Some (lit "female") = Some g -> g <> [] ->
        ascii_lower (Gender v) = ascii_lower g) /\
     (forall c, @None str = Some c -> c <> [] ->
        ascii_lower (last_part (split (lit "-") (Locale v)))
        = ascii_lower c)).
Proof.
  exact (proj2 (selected_voice_from_catalog ascii_lower Samples.catalog None
                  (Some (lit "EN")) (Some (lit "female")) None 0)
           eq_refl eq_refl).
Defined.


(** ** The resolver on the catalog of the examples *)

Example resolve_aria :
  select_voice ascii_lower Samples.catalog (Some (lit "Aria")) None None None 0
  = lit "en-US-AriaNeural".
Proof. reflexivity. Qed.

Example resolve_first_wins :
  select_voice ascii_lower Samples.catalog (Some (lit "en-us Neural"))
    None None None 0
  = lit "en-US-GuyNeural".
Proof. reflexivity. Qed.

Example resolve_no_match_is_default :
  select_voice ascii_lower [Samples.guy; Samples.denise] (Some (lit "adri"))
    (Some (lit "fr")) None None 0
  = default_voice.
Proof. reflexivity. Qed.

Example resolve_filters :
  select_voice ascii_lower Samples.catalog None (Some (lit "en"))
    (Some (lit "Female")) None 7
  = lit "en-US-AriaNeural".
Proof. reflexivity. Qed.

Example resolve_no_parameters :
  select_voice ascii_lower Samples.catalog None None None None 0
  = default_voice.
Proof. reflexivity. Qed.

Example resolve_empty_voice :
  select_voice ascii_lower Samples.catalog (Some []) None None None 0
  = default_voice.
Proof. reflexivity. Qed.

Example serve_hello :
  fst (tts_api ascii_lower Samples.healthy Samples.get_hello
         Samples.empty_world)
  = audio_response Samples.mp3 default_voice.
Proof. reflexivity. Qed.

(** * Further properties of the code *)

(** ** The stats file over several requests *)

Lemma save_stats_completes (readable : bool) (mode : str)
    (f : option content) (t a u : Z) :
  holds_counters (load_stats readable f) t a u ->
  exists j,
    save_stats readable WriteOk mode f = Some (Doc j) /\
    holds_counters j (t + 1)
      (if str_eqb mode (lit "API") then a + 1 else a)
      (if str_eqb mode (lit "API") then u else u + 1).
Proof.
  intros Hc. destruct (incr_counters mode _ t a u Hc) as (j1 & j2 & H1 & H2 & Hc2).
  exists j2. split; [|exact Hc2].
  unfold save_stats, save_stats_try. by rewrite H1, H2.
Qed.

Lemma count_api_cons (m : str) (modes : list str) :
  count_api (m :: modes)
  = (if str_eqb m (lit "API") then 1 else 0) + count_api modes.
Proof.
  unfold count_api. cbn [List.filter].
  destruct (str_eqb m (lit "API")); cbn [length]; lia.
Qed.

(** X1: completed increments add up.  After one completed [save_stats]
    per element of [modes], [total] has grown by the number of requests,
    [api] by the number of them whose mode is "API" and [ui] by the
    number of the others. *)
Theorem increments_add_up (modes : list str) (f : option content)
    (t a u : Z) :
  holds_counters (load_stats true f) t a u ->
  let n := Z.of_nat (length modes) in
  let k := count_api modes in
  holds_counters (load_stats true (increments modes f))
    (t + n) (a + k) (u + (n - k)) /\
  0 <= k <= n.
Proof.
  revert f t a u. induction modes as [|m modes IH]; intros f t a u Hc n k.
  - subst n k. unfold increments, count_api.
    cbn [fold_left List.filter length]. change (Z.of_nat 0) with 0.
    rewrite Z.sub_0_r, !Z.add_0_r. split; [exact Hc | lia].
  - destruct (save_stats_completes true m f t a u Hc) as (j & Hs & Hj).
    unfold increments in *. cbn [fold_left]. rewrite Hs.
    specialize (IH (Some (Doc j)) _ _ _ Hj). cbn zeta in IH.
    destruct IH as [IH Hk]. subst n k. rewrite count_api_cons.
    cbn [length]. rewrite Nat2Z.inj_succ.
    destruct (str_eqb m (lit "API")).
    + split; [|lia].
      replace (t + Z.succ (Z.of_nat (length modes)))
        with (t + 1 + Z.of_nat (length modes)) by lia.
      replace (a + (1 + count_api modes)) with (a + 1 + count_api modes) by lia.
      replace (u + (Z.succ (Z.of_nat (length modes)) - (1 + count_api modes)))
        with (u + (Z.of_nat (length modes) - count_api modes)) by lia.
      exact IH.
    + split; [|lia].
      replace (t + Z.succ (Z.of_nat (length modes)))
        with (t + 1 + Z.of_nat (length modes)) by lia.
      replace (a + (0 + count_api modes)) with (a + count_api modes) by lia.
      replace (u + (Z.succ (Z.of_nat (length modes)) - (0 + count_api modes)))
        with (u + 1 + (Z.of_nat (length modes) - count_api modes)) by lia.
      exact IH.
Qed.

Lemma increments_add_up_witness :
  holds_counters
    (load_stats true
       (increments [lit "UI"; lit "API"; lit "UI"]
          (Some (Doc (counters 4 3 1)))))
    (4 + 3) (3 + 1) (1 + (3 - 1)).
Proof.
  refine (proj1 (increments_add_up [lit "UI"; lit "API"; lit "UI"]
                   (Some (Doc (counters 4 3 1))) 4 3 1 _)).
  by eexists.
Defined.

Lemma dict_set_keys (k : str) (v x : json) (d : dict) :
  dict_get k d = Some x -> map fst (dict_set k v d) = map fst d.
Proof.
  induction d as [|[k' v'] d IH]; cbn; [discriminate|].
  destruct (str_eqb k k'); cbn; [reflexivity|].
  intros H. by rewrite IH.
Qed.

(** X2: an increment rewrites two values and nothing else.  The stored
    [dict] keeps its keys in their order, and every key other than
    [total] and the counter of the mode keeps its value. *)
Theorem increment_keeps_other_keys (mode : str) (d : dict) (t a u : Z) :
  holds_counters (JDict d) t a u ->
  exists d',
    save_stats true WriteOk mode (Some (Doc (JDict d))) = Some (Doc (JDict d')) /\
    map fst d' = map fst d /\
    (forall k, k <> lit "total" -> k <> mode_key mode ->
               dict_get k d' = dict_get k d).
Proof.
  intros (d0 & [= <-] & Ht & Ha & Hu).
  unfold save_stats, save_stats_try. cbn [load_stats].
  rewrite (incr_int _ _ _ Ht). fold (mode_key mode).
  assert (Hm : exists z, dict_get (mode_key mode) d = Some (JInt z)).
  { unfold mode_key. destruct (str_eqb mode (lit "API")); eauto. }
  destruct Hm as [z Hz].
  assert (Hne : mode_key mode <> lit "total").
  { unfold mode_key. destruct (str_eqb mode (lit "API")); cbv; discriminate. }
  rewrite (incr_int _ _ z) by (by rewrite dict_get_set_other).
  eexists. split; [reflexivity|]. split.
  - erewrite !dict_set_keys; [reflexivity | exact Ht |].
    rewrite dict_get_set_other by done. exact Hz.
  - intros k Hk1 Hk2. by rewrite !dict_get_set_other.
Qed.

Lemma increment_keeps_other_keys_witness :
  let d := [(lit "note", JStr (lit "since May")); (lit "ui", JInt 1);
            (lit "total", JInt 4); (lit "api", JInt 3)] in
  exists d',
    save_stats true WriteOk (lit "API") (Some (Doc (JDict d)))
    = Some (Doc (JDict d')) /\
    map fst d' = map fst d.
Proof.
  intros d.
  destruct (increment_keeps_other_keys (lit "API") d 4 3 1) as (d' & H1 & H2 & _).
  - by eexists.
  - by exists d'.
Defined.

(** X3: a stats file that cannot be loaded costs the whole history.  When
    the file is absent, unreadable, not JSON or cut short, a completed
    increment stores a record that counts this one request only.  So a
    write that raises before the last code point of the new record,
    followed by a completed increment, leaves [total = 1] whatever the
    counters were before; a write that raises only after the last code
    point leaves the whole new record, and the count goes on from it. *)
Theorem unloadable_file_restarts_count (readable : bool) (mode : str)
    (f : option content) :
  f = None \/ f = Some Junk \/ (exists j n, f = Some (Torn j n)) \/
  readable = false ->
  save_stats readable WriteOk mode f
  = Some (Doc (counters 1 (if str_eqb mode (lit "API") then 1 else 0)
                          (if str_eqb mode (lit "API") then 0 else 1))) /\
  (forall (j j' : json) (t a u : Z) (n : nat) (mode0 : str),
      holds_counters j t a u ->
      save_stats true WriteOk mode0 (Some (Doc j)) = Some (Doc j') ->
      ((n < length (dumps j'))%nat ->
       save_stats true (DumpFails n) mode0 (Some (Doc j)) = Some (Torn j' n) /\
       save_stats true WriteOk mode
         (save_stats true (DumpFails n) mode0 (Some (Doc j)))
       = Some (Doc (counters 1 (if str_eqb mode (lit "API") then 1 else 0)
                               (if str_eqb mode (lit "API") then 0 else 1)))) /\
      ((length (dumps j') <= n)%nat ->
       save_stats true (DumpFails n) mode0 (Some (Doc j)) = Some (Doc j') /\
       exists j'',
         save_stats true WriteOk mode
           (save_stats true (DumpFails n) mode0 (Some (Doc j)))
         = Some (Doc j'') /\
         holds_counters j'' (t + 2)
           ((if str_eqb mode0 (lit "API") then a + 1 else a)
            + (if str_eqb mode (lit "API") then 1 else 0))
           ((if str_eqb mode0 (lit "API") then u else u + 1)
            + (if str_eqb mode (lit "API") then 0 else 1)))).
Proof.
  intros Hf.
  assert (Hzero : forall rd g, load_stats rd g = zero_stats ->
    save_stats rd WriteOk mode g
    = Some (Doc (counters 1 (if str_eqb mode (lit "API") then 1 else 0)
                            (if str_eqb mode (lit "API") then 0 else 1)))).
  { intros rd g Hg. unfold save_stats, save_stats_try. rewrite Hg.
    by destruct (str_eqb mode (lit "API")). }
  split.
  - apply Hzero. by apply load_stats_fallback.
  - intros j j' t a u n mode0 Hc Hok.
    destruct (incr_counters mode0 j t a u Hc) as (j1 & j2 & H1 & H2 & Hc2).
    assert (Hj : j2 = j').
    { unfold save_stats, save_stats_try in Hok. cbn [load_stats] in Hok.
      rewrite H1, H2 in Hok. cbn in Hok. congruence. }
    subst j2.
    assert (Hdump : save_stats true (DumpFails n) mode0 (Some (Doc j))
                    = Some (if (n <? length (dumps j'))%nat
                            then Torn j' n else Doc j')).
    { unfold save_stats, save_stats_try. cbn [load_stats].
      by rewrite H1, H2. }
    rewrite Hdump. split; intros Hn.
    + apply Nat.ltb_lt in Hn. rewrite Hn. split; [reflexivity|].
      by apply Hzero.
    + apply Nat.ltb_ge in Hn. rewrite Hn. split; [reflexivity|].
      destruct (save_stats_completes true mode (Some (Doc j')) _ _ _ Hc2)
        as (j'' & Hs & Hc3).
      exists j''. split; [exact Hs|].
      replace (t + 2) with (t + 1 + 1) by lia.
      destruct (str_eqb mode (lit "API")), (str_eqb mode0 (lit "API"));
        rewrite ?Z.add_0_r; exact Hc3.
Qed.

Lemma unloadable_file_restarts_count_witness :
  save_stats true WriteOk (lit "UI") (Some (Torn (counters 8 5 3) 11))
  = Some (Doc (counters 1 0 1)) /\
  save_stats true WriteOk (lit "UI")
    (save_stats true (DumpFails 5) (lit "API") (Some (Doc (counters 8 5 3))))
  = Some (Doc (counters 1 0 1)).
Proof.
  destruct (unloadable_file_restarts_count true (lit "UI")
              (Some (Torn (counters 8 5 3) 11))
              ltac:(right; right; left; by eexists _, _)) as [H1 H2].
  split; [exact H1|].
  refine (proj2 (proj1 (H2 (counters 8 5 3) (counters 9 6 3) 8 5 3 5%nat
                          (lit "API") _ eq_refl) _)).
  - by eexists.
  - vm_compute. lia.
Defined.

(** X4: a stored document that is JSON but lacks [total] or the counter
    of the mode (or is not a [dict] at all) is never repaired: the
    increment raises before the file is opened, so the file stays as it
    is whatever the write would have done. *)
Theorem incomplete_record_is_kept (wr : write_outcome) (mode : str)
    (j : json) :
  (forall d, j = JDict d ->
             dict_get (lit "total") d = None \/
             dict_get (mode_key mode) d = None) ->
  save_stats_try true wr mode (Some (Doc j)) = (Some (Doc j), false).
Proof.
  intros H. unfold save_stats_try. cbn [load_stats].
  destruct j as [| | | | |d]; try reflexivity.
  destruct (H d eq_refl) as [Ht | Hm].
  - unfold incr at 1. by rewrite Ht.
  - destruct (incr (lit "total") (JDict d)) as [j1|] eqn:E1; [|reflexivity].
    unfold incr in E1.
    destruct (dict_get (lit "total") d) as [x|]; [|discriminate].
    cbn in E1. destruct (add1 x) as [y|]; [|discriminate].
    cbn in E1. injection E1 as <-. fold (mode_key mode).
    assert (Hne : mode_key mode <> lit "total").
    { unfold mode_key. destruct (str_eqb mode (lit "API")); cbv; discriminate. }
    unfold incr. by rewrite dict_get_set_other, Hm.
Qed.

Lemma incomplete_record_is_kept_witness :
  save_stats_try true WriteOk (lit "API")
    (Some (Doc (JDict [(lit "total", JInt 5); (lit "ui", JInt 5)])))
  = (Some (Doc (JDict [(lit "total", JInt 5); (lit "ui", JInt 5)])), false).
Proof.
  apply incomplete_record_is_kept.
  intros d [= <-]. right. reflexivity.
Defined.

(** ** How a request is classified *)

Lemma startswith_app (p s : str) : startswith p (p ++ s) = true.
Proof. induction p as [|c p IH]; [by destruct s|]. cbn. by rewrite Z.eqb_refl. Qed.

Lemma startswith_split (p s : str) :
  startswith p s = true -> exists post, s = p ++ post.
Proof.
  revert s. induction p as [|c p IH]; intros s H; [by exists s|].
  destruct s as [|x s]; [discriminate|]. cbn in H.
  apply andb_true_iff in H as [->%Z.eqb_eq H].
  destruct (IH s H) as [post ->]. by exists post.
Qed.

Lemma contains_split (h s : str) :
  contains h s = true <-> exists pre post, s = pre ++ h ++ post.
Proof.
  split.
  - induction s as [|c s IH]; cbn; intros H.
    + rewrite orb_false_r in H. apply startswith_split in H as [post ->].
      by exists [], post.
    + apply orb_true_iff in H as [H | H].
      * apply startswith_split in H as [post ->]. by exists [], post.
      * destruct (IH H) as (pre & post & ->). by exists (c :: pre), post.
  - intros (pre & post & ->). induction pre as [|c pre IH].
    + cbn [app]. destruct (h ++ post) eqn:E; cbn; rewrite <- ?E;
        by rewrite startswith_app.
    + cbn. rewrite IH. apply orb_true_r.
Qed.

(** X5: a request counts as "UI" exactly when it has a non-empty
    [Referer] in which the [Host] occurs somewhere, and as "API"
    otherwise: the host is looked for anywhere in the referrer, not only
    in its authority part. *)
Theorem ui_iff_referrer_contains_host (r : request) :
  (usage_mode r = lit "UI" <->
   exists pre post,
     referrer r = Some (pre ++ host r ++ post) /\ pre ++ host r ++ post <> []) /\
  (usage_mode r <> lit "UI" -> usage_mode r = lit "API").
Proof.
  unfold usage_mode. split.
  - destruct (referrer r) as [[|c ref]|];
      cbn [truthy andb default from_option]; unfold Datatypes.id.
    + split; [discriminate | by intros (pre & post & [= <-] & H)].
    + split.
      * destruct (contains (host r) (c :: ref)) eqn:E;
          [|intros H; cbv in H; discriminate H].
        intros _. apply contains_split in E as (pre & post & E).
        exists pre, post. by rewrite <- E.
      * intros (pre & post & [= E] & _).
        rewrite (proj2 (contains_split (host r) (c :: ref))); [done|].
        by exists pre, post.
    + split; [discriminate | by intros (pre & post & [=] & _)].
  - by destruct (_ && _).
Qed.

Lemma ui_iff_referrer_contains_host_witness :
  usage_mode {| args := [];
                form := [];
                referrer := Some (lit "https://other.example/?from=tts.example");
                host := lit "tts.example" |}
  = lit "UI".
Proof.
  apply (proj1 (ui_iff_referrer_contains_host _)).
  by exists (lit "https://other.example/?from="), [].
Defined.

(** ** The handler's outcomes *)

Lemma tts_api_counts (lower : str -> str) (e : env) (r : request) (w : world) :
  truthy (text (get_params r)) = true ->
  stats_file (snd (tts_api lower e r w))
  = save_stats (stats_readable e) (stats_write e) (usage_mode r) (stats_file w).
Proof.
  intros Ht. unfold tts_api. rewrite Ht. cbn [negb].
  destruct (list_voices e); [|reflexivity].
  by destruct (synthesize e _ _ _ _).
Qed.

(** X6: every request that carries a text is counted, whatever becomes
    of it.  When the stats file holds counters and the write succeeds,
    the admin panel afterwards shows [total + 1] and one more in the
    field of the request's mode, also when the response is a 500. *)
Theorem every_text_request_is_counted (lower : str -> str) (e : env)
    (r : request) (w : world) (s : session) (t a u : Z) :
  truthy (text (get_params r)) = true ->
  stats_readable e = true -> stats_write e = WriteOk ->
  holds_counters (load_stats true (stats_file w)) t a u ->
  session_get s (lit "admin_logged_in") = true ->
  exists j,
    admin_panel s true (stats_file (snd (tts_api lower e r w)))
    = Template (lit "admin_panel.html") (StatsCtx j) /\
    holds_counters j (t + 1)
      (if str_eqb (usage_mode r) (lit "API") then a + 1 else a)
      (if str_eqb (usage_mode r) (lit "API") then u else u + 1).
Proof.
  intros Ht Hrd Hwr Hc Hs.
  rewrite tts_api_counts, Hrd, Hwr by done.
  destruct (save_stats_completes true (usage_mode r) _ t a u Hc) as (j & -> & Hj).
  exists j. split; [|exact Hj].
  unfold admin_panel. by rewrite Hs.
Qed.

Lemma every_text_request_is_counted_witness :
  exists j,
    admin_panel {[ lit "admin_logged_in" := true ]} true
      (stats_file (snd (tts_api ascii_lower Samples.render_fails
                          Samples.get_hello
                          {| stats_file := Some (Doc (counters 4 3 1));
                             scratch := ∅ |})))
    = Template (lit "admin_panel.html") (StatsCtx j) /\
    holds_counters j 5 4 1.
Proof.
  refine (every_text_request_is_counted ascii_lower Samples.render_fails
            Samples.get_hello
            {| stats_file := Some (Doc (counters 4 3 1)); scratch := ∅ |}
            {[ lit "admin_logged_in" := true ]} 4 3 1
            eq_refl eq_refl eq_refl _ _).
  - by eexists.
  - unfold session_get. by rewrite lookup_singleton_eq.
Defined.

(** X7: when a text is given and the voice list cannot be fetched, the
    response is 500 with [{"error": "TTS Engine unavailable"}].  The
    request has been counted by then: the stats file is as [save_stats]
    leaves it.  No other file of the directory is created or changed; in
    particular there is no transient file. *)
Theorem catalog_failure_is_500 (lower : str -> str) (e : env) (r : request)
    (w : world) :
  truthy (text (get_params r)) = true ->
  list_voices e = None ->
  fst (tts_api lower e r w) = json_error 500 (lit "TTS Engine unavailable") /\
  (forall stats_path p,
      file_at stats_path (snd (tts_api lower e r w)) p
      = if bool_decide (p = stats_path)
        then StatsFile <$> save_stats (stats_readable e) (stats_write e)
                             (usage_mode r) (stats_file w)
        else file_at stats_path w p).
Proof.
  intros Ht Hv. unfold tts_api. rewrite Ht, Hv. cbn [negb fst snd].
  split; [reflexivity|]. intros sp p. unfold file_at.
  cbn [stats_file scratch]. by destruct (bool_decide (p = sp)).
Qed.

Lemma catalog_failure_is_500_witness :
  let e := with_stats_io Samples.healthy true WriteOk in
  let down :=
    {| stats_readable := true; stats_write := WriteOk; list_voices := None;
       randbelow := 0; named_temporary_file := named_temporary_file e;
       communicate_save := communicate_save e; read_error := None;
       remove_error := None |} in
  let w := {| stats_file := Some (Doc (counters 4 3 1)); scratch := ∅ |} in
  fst (tts_api ascii_lower down Samples.get_hello w)
  = json_error 500 (lit "TTS Engine unavailable") /\
  file_at (lit "/tmp/server_stats.json")
    (snd (tts_api ascii_lower down Samples.get_hello w))
    (lit "/tmp/server_stats.json")
  = Some (StatsFile (Doc (counters 5 4 1))).
Proof.
  intros e down w.
  destruct (catalog_failure_is_500 ascii_lower down Samples.get_hello w
              eq_refl eq_refl) as [Hresp Hfiles].
  split; [exact Hresp|].
  by rewrite (Hfiles (lit "/tmp/server_stats.json")
                (lit "/tmp/server_stats.json")).
Defined.

Ltac tts_cases e r :=
  unfold tts_api;
  destruct (truthy (text (get_params r))) eqn:Htext; cbn [negb];
  [destruct (list_voices e) as [vs|] eqn:Hvoices;
   [unfold synthesize;
    destruct (named_temporary_file e) as [t_name|msg] eqn:Htemp;
    [destruct (communicate_save e _ _ _) as [audio|msg partial] eqn:Hsave;
     [destruct (read_error e) as [msg|] eqn:Hread;
      [|destruct (remove_error e) as [msg|] eqn:Hremove]|]|]|]|];
  cbn [fst snd status payload scratch stats_file json_error audio_response].

(** X8: the status is 400 exactly when no text was given, and otherwise
    200 or 500; it is 200 exactly when the body is raw audio. *)
Theorem status_codes (lower : str -> str) (e : env) (r : request) (w : world) :
  let resp := fst (tts_api lower e r w) in
  (status resp = 400 <-> truthy (text (get_params r)) = false) /\
  (status resp = 200 \/ status resp = 400 \/ status resp = 500) /\
  (status resp = 200 <-> exists data, payload resp = RawBody data).
Proof.
  cbn zeta. tts_cases e r; repeat split; intros; try done; try lia; eauto;
    try (by destruct H as [? ?]).
Qed.

(** X9: the handler touches at most two files of the directory, the
    stats file and its own transient file.  Every other path holds
    afterwards what it held before.  The stats file is as [save_stats]
    leaves it when a text is given; without a text no file changes at
    all; and when the transient file cannot be created, only the stats
    file can have changed. *)
Theorem other_files_untouched (lower : str -> str) (e : env) (r : request)
    (w : world) (stats_path : str) :
  (forall p, p <> stats_path -> named_temporary_file e <> inl p ->
             file_at stats_path (snd (tts_api lower e r w)) p
             = file_at stats_path w p) /\
  (truthy (text (get_params r)) = true ->
   file_at stats_path (snd (tts_api lower e r w)) stats_path
   = StatsFile <$> save_stats (stats_readable e) (stats_write e)
                     (usage_mode r) (stats_file w)) /\
  (truthy (text (get_params r)) = false ->
   forall p, file_at stats_path (snd (tts_api lower e r w)) p
             = file_at stats_path w p) /\
  (forall msg, named_temporary_file e = inr msg ->
     forall p, p <> stats_path ->
               file_at stats_path (snd (tts_api lower e r w)) p
               = file_at stats_path w p).
Proof.
  assert (Hother : forall p, p <> stats_path ->
            file_at stats_path (snd (tts_api lower e r w)) p
            = OtherFile <$> scratch (snd (tts_api lower e r w)) !! p).
  { intros p Hp. unfold file_at. by rewrite bool_decide_eq_false_2. }
  assert (Hother0 : forall p, p <> stats_path ->
            file_at stats_path w p = OtherFile <$> scratch w !! p).
  { intros p Hp. unfold file_at. by rewrite bool_decide_eq_false_2. }
  split; [|split; [|split]].
  - intros p Hp Hname. rewrite Hother, Hother0 by done. f_equal.
    tts_cases e r; try done;
      rewrite ?lookup_delete_ne, ?lookup_insert_ne by congruence; done.
  - intros Ht. unfold file_at. rewrite bool_decide_eq_true_2 by done.
    by rewrite tts_api_counts.
  - intros Ht p. unfold tts_api. by rewrite Ht.
  - intros m Hm p Hp. rewrite Hother, Hother0 by done. f_equal.
    tts_cases e r; try done; congruence.
Qed.

Lemma other_files_untouched_witness :
  let w := {| stats_file := None;
              scratch := {[ lit "/tmp/keep.mp3" := Samples.mp3 ]} |} in
  file_at (lit "/tmp/server_stats.json")
    (snd (tts_api ascii_lower Samples.render_fails Samples.get_hello w))
    (lit "/tmp/keep.mp3")
  = Some (OtherFile Samples.mp3).
Proof.
  intros w.
  rewrite (proj1 (other_files_untouched ascii_lower Samples.render_fails
                    Samples.get_hello w (lit "/tmp/server_stats.json"))
             (lit "/tmp/keep.mp3")) by discriminate.
  reflexivity.
Defined.

(** X10: a 200 response carries exactly what the engine rendered for the
    request's text, the selected voice and the rate, and names that voice
    in [X-Voice-Used] and in the file name of [Content-Disposition]. *)
Theorem success_carries_rendered_audio (lower : str -> str) (e : env)
    (r : request) (w : world) :
  status (fst (tts_api lower e r w)) = 200 ->
  exists all_voices audio,
    list_voices e = Some all_voices /\
    let p := get_params r in
    let selected_voice :=
      select_voice lower all_voices (voice_param p) (lang p) (gender_param p)
        (country p) (randbelow e) in
    communicate_save e (default [] (text p)) selected_voice (rate p)
    = Rendered audio /\
    payload (fst (tts_api lower e r w)) = RawBody audio /\
    headers (fst (tts_api lower e r w))
    = [(lit "Content-Disposition",
        lit "attachment; filename=tts_" ++ selected_voice ++ lit ".mp3");
       (lit "X-Voice-Used", selected_voice)] /\
    mimetype (fst (tts_api lower e r w)) = lit "audio/mpeg".
Proof.
  tts_cases e r; try discriminate.
  intros _. exists vs, audio. split; [reflexivity|]. cbn zeta.
  split; [exact Hsave|]. cbn [headers mimetype].
  by rewrite lookup_insert_eq.
Qed.

Lemma success_carries_rendered_audio_witness :
  exists all_voices audio,
    list_voices Samples.healthy = Some all_voices /\
    payload (fst (tts_api ascii_lower Samples.healthy Samples.get_hello
                    Samples.empty_world))
    = RawBody audio.
Proof.
  destruct (success_carries_rendered_audio ascii_lower Samples.healthy
              Samples.get_hello Samples.empty_world eq_refl)
    as (vs & audio & Hv & _ & Hp & _).
  by exists vs, audio.
Defined.

(** X11: when the audio was rendered and read but [os.remove] raises, the
    audio is discarded: the response is the 500 with the message of that
    exception, and the file stays with the audio in it. *)
Theorem remove_failure_discards_audio (lower : str -> str) (e : env)
    (r : request) (w : world) (all_voices : list raw_voice) (t_name msg : str)
    (audio : bytes) :
  truthy (text (get_params r)) = true ->
  list_voices e = Some all_voices ->
  named_temporary_file e = inl t_name ->
  (forall txt v rt, communicate_save e txt v rt = Rendered audio) ->
  read_error e = None ->
  remove_error e = Some msg ->
  fst (tts_api lower e r w) = json_error 500 msg /\
  scratch (snd (tts_api lower e r w)) !! t_name = Some audio.
Proof.
  intros Ht Hv Hn Hs Hr Hm.
  rewrite (tts_api_reaches_synthesis lower e r w all_voices Ht Hv).
  unfold synthesize. rewrite Hn, Hs, Hr, Hm. cbn [fst snd scratch].
  by rewrite lookup_insert_eq.
Qed.

Lemma remove_failure_discards_audio_witness :
  let e :=
    {| stats_readable := true; stats_write := WriteOk;
       list_voices := Some Samples.catalog; randbelow := 0;
       named_temporary_file := inl (lit "/tmp/tmpab12cd34.mp3");
       communicate_save := fun _ _ _ => Rendered Samples.mp3;
       read_error := None;
       remove_error := Some (lit "[Errno 13] Permission denied") |} in
  fst (tts_api ascii_lower e Samples.get_hello Samples.empty_world)
  = json_error 500 (lit "[Errno 13] Permission denied").
Proof.
  intros e.
  exact (proj1 (remove_failure_discards_audio ascii_lower e Samples.get_hello
                  Samples.empty_world Samples.catalog
                  (lit "/tmp/tmpab12cd34.mp3")
                  (lit "[Errno 13] Permission denied") Samples.mp3
                  eq_refl eq_refl eq_refl (fun _ _ _ => eq_refl)
                  eq_refl eq_refl)).
Defined.

(** ** More on voice selection *)

Lemma contains_nil (hay : str) : contains [] hay = true.
Proof. by destruct hay. Qed.

(** X12: a [voice] that cleans to the empty string (only whitespace, or
    only "neural" and whitespace) is a substring of every id, so the
    first entry of the catalog is selected, not the default. *)
Theorem blank_token_selects_first_entry (lower : str -> str)
    (v : raw_voice) (rest : list raw_voice) (vp : str)
    (lg gd ct : option str) (draw : nat) :
  vp <> [] ->
  strip (replace (lit "neural") [] (lower vp)) = [] ->
  select_voice lower (v :: rest) (Some vp) lg gd ct draw = ShortName v.
Proof.
  intros Hvp Hclean. rewrite select_voice_explicit by done.
  rewrite Hclean. cbn [smart_match]. by rewrite contains_nil.
Qed.

Lemma blank_token_selects_first_entry_witness :
  select_voice ascii_lower Samples.catalog (Some (lit " Neural ")) None None
    None 0
  = lit "en-US-GuyNeural".
Proof.
  apply (blank_token_selects_first_entry ascii_lower Samples.guy
           [Samples.denise; Samples.aria] (lit " Neural ") None None None 0);
    [discriminate | reflexivity].
Defined.

Lemma narrow_In (x : option str) (keep : str -> raw_voice -> bool)
    (cands : list raw_voice) (v : raw_voice) :
  In v (narrow x keep cands) <->
  In v cands /\ (truthy x = true -> keep (default [] x) v = true).
Proof.
  unfold narrow. destruct (truthy x).
  - rewrite filter_In. split; intros [H1 H2]; auto.
  - split; [intros H; split; [exact H | discriminate] | by intros [H _]].
Qed.

(** X13: the candidates of the filter branch are exactly the catalog
    entries that pass every filter given, and each of them is selected by
    some draw of [random.choice]. *)
Theorem candidates_are_the_matches (lower : str -> str)
    (all_voices : list raw_voice) (vp lg gd ct : option str) :
  (forall v,
      In v (filter_candidates lower all_voices lg gd ct) <->
      In v all_voices /\
      (truthy lg = true -> by_lang lower (default [] lg) v = true) /\
      (truthy gd = true -> by_gender lower (default [] gd) v = true) /\
      (truthy ct = true -> by_country lower (default [] ct) v = true)) /\
  (forall v,
      truthy vp = false ->
      truthy lg || truthy gd || truthy ct = true ->
      In v (filter_candidates lower all_voices lg gd ct) ->
      exists draw,
        select_voice lower all_voices vp lg gd ct draw = ShortName v).
Proof.
  split.
  - intros v. unfold filter_candidates. rewrite !narrow_In. tauto.
  - intros v Hvp Hany Hin.
    apply list_elem_of_In, list_elem_of_lookup in Hin as [i Hi].
    exists i. unfold select_voice, choice. rewrite Hvp, Hany.
    rewrite Nat.mod_small by (by eapply lookup_lt_Some).
    by rewrite Hi.
Qed.

Lemma candidates_are_the_matches_witness :
  exists draw,
    select_voice ascii_lower Samples.catalog None (Some (lit "en")) None None
      draw
    = lit "en-US-AriaNeural".
Proof.
  apply (proj2 (candidates_are_the_matches ascii_lower Samples.catalog None
                  (Some (lit "en")) None None) Samples.aria eq_refl eq_refl).
  change (In Samples.aria [Samples.guy; Samples.aria]).
  right. left. reflexivity.
Defined.

(** X14: when exactly one entry passes the filters, it is selected
    whatever [random.choice] draws. *)
Theorem single_candidate_is_selected (lower : str -> str)
    (all_voices : list raw_voice) (vp lg gd ct : option str)
    (v : raw_voice) (draw : nat) :
  truthy vp = false ->
  truthy lg || truthy gd || truthy ct = true ->
  filter_candidates lower all_voices lg gd ct = [v] ->
  select_voice lower all_voices vp lg gd ct draw = ShortName v.
Proof.
  intros Hvp Hany Hc. unfold select_voice, choice.
  rewrite Hvp, Hany, Hc. cbn [length]. by rewrite Nat.mod_1_r.
Qed.

Lemma single_candidate_is_selected_witness :
  select_voice ascii_lower Samples.catalog None (Some (lit "en"))
    (Some (lit "Female")) None 41
  = lit "en-US-AriaNeural".
Proof.
  exact (single_candidate_is_selected ascii_lower Samples.catalog None
           (Some (lit "en")) (Some (lit "Female")) None Samples.aria 41
           eq_refl eq_refl eq_refl).
Defined.

(** X15: on an empty catalog every request gets the default voice. *)
Theorem empty_catalog_gives_default (lower : str -> str)
    (vp lg gd ct : option str) (draw : nat) :
  select_voice lower [] vp lg gd ct draw = default_voice.
Proof.
  unfold select_voice. destruct (truthy vp); [reflexivity|].
  destruct (truthy lg || truthy gd || truthy ct); [|reflexivity].
  assert (H : filter_candidates lower [] lg gd ct = []).
  { unfold filter_candidates, narrow.
    by destruct (truthy lg), (truthy gd), (truthy ct). }
  by rewrite H.
Qed.

(** ** More on the flag glyph *)

Lemma flag_after_last_dash (p s : str) :
  no_sep 45 s ->
  get_flag_emoji (p ++ lit "-" ++ s)
  = match s with
    | c0 :: c1 :: _ =>
        match chr (c0 + 127397), chr (c1 + 127397) with
        | Some a, Some b => [a; b]
        | _, _ => white_flag
        end
    | _ => white_flag
    end.
Proof.
  intros Hs. unfold get_flag_emoji. change (lit "-") with [45].
  cbn [app]. rewrite contains_sep, split_app.
  rewrite last_part_app by apply split_nonempty.
  by rewrite split_no_sep.
Qed.

(** X16: the flag is made from the first two code points after the last
    [-] of the locale and from nothing else: what stands before that [-]
    and what follows the two code points make no difference. *)
Theorem flag_uses_two_code_points_after_last_dash (p s : str) :
  no_sep 45 s ->
  get_flag_emoji (p ++ lit "-" ++ s) = get_flag_emoji (lit "-" ++ s) /\
  (forall c0 c1 rest, s = c0 :: c1 :: rest ->
     get_flag_emoji (p ++ lit "-" ++ s) = get_flag_emoji (lit "-" ++ [c0; c1])).
Proof.
  intros Hs. split.
  - rewrite (flag_after_last_dash p s Hs). symmetry.
    exact (flag_after_last_dash [] s Hs).
  - intros c0 c1 rest ->. rewrite (flag_after_last_dash p _ Hs). symmetry.
    apply (flag_after_last_dash [] [c0; c1]).
    apply Forall_cons in Hs as [Hc0 Hs]. apply Forall_cons in Hs as [Hc1 _].
    by repeat constructor.
Qed.

Lemma flag_uses_two_code_points_after_last_dash_witness :
  get_flag_emoji (lit "zh-CN" ++ lit "-" ++ lit "liaoning")
  = get_flag_emoji (lit "-" ++ lit "li").
Proof.
  apply (proj2 (flag_uses_two_code_points_after_last_dash (lit "zh-CN")
                  (lit "liaoning")
                  ltac:(unfold no_sep; repeat constructor; discriminate))
           108 105 (lit "aoning") eq_refl).
Defined.

(** X17: the two code points are not checked to be letters: the result
    consists of regional-indicator symbols exactly when both code points
    after the last [-] are uppercase [A]..[Z]; a lowercase or numeric
    region code gives other symbols. *)
Theorem flag_is_regional_iff_uppercase (p : str) (c0 c1 : Z) (rest : str) :
  no_sep 45 (c0 :: c1 :: rest) ->
  is_code_point c0 -> is_code_point c1 ->
  Forall is_regional_indicator (get_flag_emoji (p ++ lit "-" ++ c0 :: c1 :: rest))
  <-> is_upper c0 /\ is_upper c1.
Proof.
  intros Hs [H0 H0'] [H1 H1']. rewrite (flag_after_last_dash p _ Hs).
  unfold chr, is_upper, is_regional_indicator.
  destruct (Z.leb_spec 0 (c0 + 127397)); [|lia].
  destruct (Z.leb_spec 0 (c1 + 127397)); [|lia].
  destruct (Z.ltb_spec (c0 + 127397) 1114112);
    destruct (Z.ltb_spec (c1 + 127397) 1114112); cbn [andb];
    rewrite ?Forall_cons, ?Forall_nil; unfold white_flag;
    rewrite ?Forall_cons; lia.
Qed.

Lemma flag_is_regional_iff_uppercase_witness :
  ~ Forall is_regional_indicator (get_flag_emoji (lit "en" ++ lit "-" ++ [117; 115])).
Proof.
  intros H.
  apply (flag_is_regional_iff_uppercase (lit "en") 117 115 []) in H as [[? ?] _];
    [lia | | |]; unfold no_sep, is_code_point;
    [repeat constructor; discriminate | lia | lia].
Defined.

(** X18: the glyph is never empty and never longer than two code
    points. *)
Theorem flag_has_one_or_two_code_points (loc : str) :
  (1 <= length (get_flag_emoji loc) <= 2)%nat.
Proof.
  unfold get_flag_emoji. destruct (contains _ loc); [|cbn; lia].
  destruct (last_part _) as [|c0 [|c1 rest]]; try (cbn; lia).
  destruct (chr (c0 + 127397)), (chr (c1 + 127397)); cbn; lia.
Qed.

(** ** More on the display name *)

(** X19: only the third segment of the id is used.  For an id with four
    or more segments the name is the third one (with "Neural" removed),
    and the later segments are dropped. *)
Theorem name_is_from_third_segment (v : raw_voice) (a b c rest : str) :
  ShortName v = a ++ lit "-" ++ b ++ lit "-" ++ c ++ lit "-" ++ rest ->
  no_sep 45 a -> no_sep 45 b -> no_sep 45 c ->
  name (parse_voice v) = replace (lit "Neural") [] c.
Proof.
  intros Hid Ha Hb Hc.
  assert (Hparts : exists more, split (lit "-") (ShortName v) = a :: b :: c :: more).
  { rewrite Hid. change (lit "-") with [45]. cbn [app].
    rewrite !split_app, !split_no_sep by done. by eexists. }
  destruct Hparts as [more Hparts].
  unfold parse_voice. cbn [name]. rewrite Hparts. reflexivity.
Qed.

Lemma name_is_from_third_segment_witness :
  name (parse_voice {| ShortName := lit "zh-CN-liaoning-XiaobeiNeural";
                       FriendlyName := None;
                       Gender := lit "Female";
                       Locale := lit "zh-CN-liaoning" |})
  = lit "liaoning".
Proof.
  apply (name_is_from_third_segment _ (lit "zh") (lit "CN") (lit "liaoning")
           (lit "XiaobeiNeural")); [reflexivity | ..];
    unfold no_sep; repeat constructor; discriminate.
Defined.

(** ** Splitting on any separator *)

Section SplitAny.

Variable sep : str.
Hypothesis sep_nonempty : sep <> [].

Lemma split_go_nonempty (k : nat) (s : str) : split_go sep k s <> [].
Proof.
  revert k. induction s as [|c s IH]; intros k; [discriminate|].
  cbn [split_go]. destruct k as [|k]; [|apply IH].
  destruct (startswith sep (c :: s)); [discriminate|].
  by destruct (split_go sep 0 s).
Qed.

(** A split with a single part has found no separator. *)
Lemma split_go_single (s seg : str) :
  split_go sep 0 s = [seg] -> seg = s /\ contains sep s = false.
Proof.
  revert seg. induction s as [|c s IH]; intros seg H.
  - injection H as <-. split; [reflexivity|]. by destruct sep.
  - cbn [split_go] in H. cbn [contains].
    destruct (startswith sep (c :: s)) eqn:E.
    + injection H as _ H. by apply split_go_nonempty in H.
    + destruct (split_go sep 0 s) as [|seg' rest] eqn:Es;
        [by apply split_go_nonempty in Es|].
      injection H as <- ->. destruct (IH seg' eq_refl) as [-> Hc].
      by rewrite Hc.
Qed.

Lemma split_go_no_sep (s : str) :
  contains sep s = false -> split_go sep 0 s = [s].
Proof.
  induction s as [|c s IH]; [reflexivity|]. cbn [contains split_go].
  intros [-> Hc]%orb_false_iff. by rewrite (IH Hc).
Qed.

Lemma last_part_cons (x : str) (l : list str) :
  l <> [] -> last_part (x :: l) = last_part l.
Proof. by destruct l. Qed.

(** The last part holds no separator. *)
Lemma last_split_go_clean (k : nat) (s : str) :
  contains sep (last_part (split_go sep k s)) = false.
Proof.
  revert k. induction s as [|c s IH]; intros k.
  - cbn. by destruct sep.
  - cbn [split_go]. destruct k as [|k]; [|apply IH].
    destruct (startswith sep (c :: s)) eqn:E.
    + rewrite last_part_cons by apply split_go_nonempty. apply IH.
    + destruct (split_go sep 0 s) as [|seg [|r rest]] eqn:Es.
      * by apply split_go_nonempty in Es.
      * destruct (split_go_single s seg Es) as [-> Hc].
        cbn [last_part List.last contains]. by rewrite E, Hc.
      * specialize (IH 0%nat). rewrite Es in IH. exact IH.
Qed.

Lemma join_cons (x : str) (l : list str) :
  l <> [] -> join sep (x :: l) = x ++ sep ++ join sep l.
Proof. by destruct l. Qed.

(** [sep.join(s.split(sep)) == s], for a scan that still has [k] code
    points of a separator to pass over. *)
Lemma join_split_go (k : nat) (s : str) :
  join sep (split_go sep k s) = drop k s.
Proof.
  revert k. induction s as [|c s IH]; intros k; [by destruct k|].
  cbn [split_go]. destruct k as [|k]; [|apply IH].
  destruct (startswith sep (c :: s)) eqn:E.
  - rewrite join_cons by apply split_go_nonempty. rewrite IH. cbn [app drop].
    apply startswith_split in E as [post E].
    destruct sep as [|c' sep']; [done|]. injection E as -> ->.
    cbn [length Nat.pred]. by rewrite drop_app_length.
  - specialize (IH 0%nat). cbn [drop] in *.
    destruct (split_go sep 0 s) as [|seg [|r rest]] eqn:Es.
    + by apply split_go_nonempty in Es.
    + cbn in IH |- *. by rewrite IH.
    + rewrite join_cons by done. rewrite join_cons in IH by done.
      cbn [app]. by rewrite IH.
Qed.

Lemma join_snoc (l : list str) (x : str) :
  l <> [] -> join sep (l ++ [x]) = join sep l ++ sep ++ x.
Proof.
  induction l as [|y l IH]; [done|]. intros _.
  destruct l as [|z l]; [reflexivity|].
  change ((y :: z :: l) ++ [x]) with (y :: ((z :: l) ++ [x])).
  assert (Hzl : z :: l <> []) by (intros Hzl; discriminate Hzl).
  rewrite join_cons by (cbn [app]; intros Hn; discriminate Hn).
  rewrite (IH Hzl), (join_cons y (z :: l) Hzl). by rewrite <- !app_assoc.
Qed.

(** The last part is the whole string, or what follows a separator. *)
Lemma last_split_tail (s : str) :
  let l := last_part (split sep s) in
  s = l \/ exists pre, s = pre ++ sep ++ l.
Proof.
  cbn zeta. pose proof (join_split_go 0 s) as Hj.
  change (drop 0 s) with s in Hj. unfold split.
  destruct (exists_last (split_go_nonempty 0 s)) as (init & l & E).
  rewrite E in Hj |- *. unfold last_part. rewrite List.last_last.
  destruct init as [|y init]; [left; by rewrite <- Hj|].
  right. rewrite join_snoc in Hj by (intros Hn; discriminate Hn). eauto.
Qed.

End SplitAny.

(** X20: the language label is what follows a " - " of the friendly name,
    or the whole friendly name when it holds none, and never contains
    " - " itself; an entry without a friendly name gets its locale. *)
Theorem full_lang_is_tail_of_friendly_name (v : raw_voice) :
  (forall fn, FriendlyName v = Some fn ->
     let label := full_lang (parse_voice v) in
     contains (lit " - ") label = false /\
     (fn = label \/ exists pre, fn = pre ++ lit " - " ++ label) /\
     (contains (lit " - ") fn = false -> label = fn)) /\
  (FriendlyName v = None -> full_lang (parse_voice v) = Locale v).
Proof.
  assert (Hsep : lit " - " <> []) by discriminate.
  split.
  - intros fn Hfn. unfold parse_voice. cbn [full_lang]. rewrite Hfn.
    split; [by apply last_split_go_clean|].
    split; [by apply last_split_tail|].
    intros Hc. unfold split. by rewrite split_go_no_sep.
  - intros Hfn. unfold parse_voice. cbn [full_lang]. by rewrite Hfn.
Qed.

Lemma full_lang_is_tail_of_friendly_name_witness :
  contains (lit " - ") (full_lang (parse_voice Samples.aria)) = false.
Proof.
  exact (proj1 (proj1 (full_lang_is_tail_of_friendly_name Samples.aria)
                  _ eq_refl)).
Defined.

(** ** The order of Python strings *)

Ltac z_cases :=
  repeat match goal with
         | |- context [?x <? ?y] => destruct (Z.ltb_spec x y)
         | |- context [?x =? ?y] => destruct (Z.eqb_spec x y)
         | H : context [?x <? ?y] |- _ => destruct (Z.ltb_spec x y)
         | H : context [?x =? ?y] |- _ => destruct (Z.eqb_spec x y)
         end.

Lemma str_ltb_irrefl (a : str) : str_ltb a a = false.
Proof.
  induction a as [|x a IH]; [reflexivity|]. cbn.
  rewrite Z.ltb_irrefl, Z.eqb_refl. exact IH.
Qed.

Lemma str_ltb_trans (a b c : str) :
  str_ltb a b = true -> str_ltb b c = true -> str_ltb a c = true.
Proof.
  revert b c. induction a as [|x a IH]; intros [|y b] [|z c]; cbn;
    try done.
  intros H1 H2. specialize (IH b c).
  z_cases; cbn in *; try done; try lia. by apply IH.
Qed.

Lemma str_ltb_total (a b : str) :
  str_ltb a b = true \/ a = b \/ str_ltb b a = true.
Proof.
  revert b. induction a as [|x a IH]; intros [|y b]; cbn; auto.
  destruct (IH b) as [H | [-> | H]]; z_cases; cbn; subst; auto; lia.
Qed.

Lemma str_ltb_asym (a b : str) : str_ltb a b = true -> str_ltb b a = false.
Proof.
  intros H. destruct (str_ltb b a) eqn:E; [|reflexivity].
  by rewrite <- (str_ltb_irrefl a), <- (str_ltb_trans a b a H E).
Qed.

Lemma str_le_trans (a b c : str) : str_le a b -> str_le b c -> str_le a c.
Proof.
  unfold str_le. intros Hab Hbc.
  destruct (str_ltb c a) eqn:Hca; [|reflexivity].
  destruct (str_ltb_total a b) as [H | [-> | H]]; [|congruence..].
  by rewrite <- Hbc, <- (str_ltb_trans c a b Hca H).
Qed.

Lemma str_le_neq_lt (a b : str) : str_le a b -> a <> b -> str_ltb a b = true.
Proof.
  unfold str_le. intros Hle Hne.
  destruct (str_ltb_total a b) as [H | [-> | H]]; [done|done|congruence].
Qed.

(** ** [sorted] with a key *)

Section SortedByFacts.

Context {A : Type} (key : A -> str).

Lemma insert_by_perm (x : A) (l : list A) :
  Permutation (insert_by key x l) (x :: l).
Proof.
  induction l as [|y l IH]; [reflexivity|]. cbn.
  destruct (str_ltb (key y) (key x)); [|reflexivity].
  rewrite IH. apply perm_swap.
Qed.

Lemma sorted_by_perm (l : list A) : Permutation (sorted_by key l) l.
Proof.
  induction l as [|x l IH]; [reflexivity|].
  cbn. rewrite insert_by_perm. by constructor.
Qed.

Lemma insert_by_sorted (x : A) (l : list A) :
  StronglySorted (fun a b => str_le (key a) (key b)) l ->
  StronglySorted (fun a b => str_le (key a) (key b)) (insert_by key x l).
Proof.
  induction 1 as [|y l Hs IH Hy]; cbn.
  - by repeat constructor.
  - destruct (str_ltb (key y) (key x)) eqn:E.
    + constructor; [exact IH|]. rewrite insert_by_perm.
      constructor; [|exact Hy]. by apply str_ltb_asym.
    + constructor; [by constructor|]. constructor; [exact E|].
      eapply Forall_impl; [exact Hy|]. intros z Hz.
      by apply (str_le_trans _ (key y)).
Qed.

Lemma sorted_by_sorted (l : list A) :
  StronglySorted (fun a b => str_le (key a) (key b)) (sorted_by key l).
Proof.
  induction l as [|x l IH]; [constructor|]. by apply insert_by_sorted.
Qed.

(** Elements with the same key keep their order. *)
Lemma insert_by_stable (k : str) (x : A) (l : list A) :
  List.filter (fun z => str_eqb (key z) k) (insert_by key x l)
  = List.filter (fun z => str_eqb (key z) k) (x :: l).
Proof.
  induction l as [|y l IH]; [reflexivity|]. cbn [insert_by].
  destruct (str_ltb (key y) (key x)) eqn:E; [|reflexivity].
  cbn [List.filter] in *. rewrite IH.
  destruct (str_eqb (key x) k) eqn:Ex, (str_eqb (key y) k) eqn:Ey;
    try reflexivity.
  apply str_eqb_eq in Ex, Ey. rewrite Ex, Ey, str_ltb_irrefl in E. done.
Qed.

Lemma sorted_by_stable (k : str) (l : list A) :
  List.filter (fun z => str_eqb (key z) k) (sorted_by key l)
  = List.filter (fun z => str_eqb (key z) k) l.
Proof.
  induction l as [|x l IH]; [reflexivity|].
  cbn [sorted_by foldr]. rewrite insert_by_stable. cbn [List.filter].
  fold (sorted_by key l). by rewrite IH.
Qed.

Lemma sorted_distinct_is_strict (l : list A) :
  StronglySorted (fun a b => str_le (key a) (key b)) l ->
  NoDup (key <$> l) ->
  StronglySorted (fun a b => str_ltb (key a) (key b) = true) l.
Proof.
  induction 1 as [|x l Hs IH Hx]; [constructor|].
  rewrite fmap_cons, NoDup_cons. intros [Hnin Hnd].
  constructor; [by apply IH|].
  apply Forall_forall. intros z Hz.
  apply str_le_neq_lt.
  - rewrite Forall_forall in Hx. by apply Hx.
  - intros Heq. apply Hnin. rewrite Heq. by apply list_elem_of_fmap_2.
Qed.

End SortedByFacts.

(** ** The pages *)

Lemma has_key_app (k : str) (l l' : list (str * voice)) :
  has_key k (l ++ l') = has_key k l || has_key k l'.
Proof.
  induction l as [|[k' d] l IH]; [reflexivity|].
  cbn. by rewrite IH, orb_assoc.
Qed.

Lemma has_key_false (k : str) (l : list (str * voice)) :
  has_key k l = false <-> k ∉ l.*1.
Proof.
  induction l as [|[k' d] l IH]; cbn.
  - split; [intros _; apply not_elem_of_nil | done].
  - rewrite orb_false_iff, not_elem_of_cons, str_eqb_neq. tauto.
Qed.

Lemma unique_loop_NoDup (data : list voice) (acc : list (str * voice)) :
  NoDup acc.*1 -> NoDup (unique_loop data acc).*1.
Proof.
  revert acc. induction data as [|x data IH]; intros acc Hacc; [exact Hacc|].
  cbn. apply IH. unfold unique_step.
  destruct (has_key (locale x) acc) eqn:E; cbn [negb]; [exact Hacc|].
  rewrite fmap_app. apply NoDup_app. split; [exact Hacc|].
  split; [|apply NoDup_singleton].
  intros k Hk ->%list_elem_of_singleton. by apply has_key_false in E.
Qed.

Lemma unique_loop_keys (data : list voice) (acc : list (str * voice)) :
  Forall (fun kd => kd.1 = locale kd.2) acc ->
  Forall (fun kd => kd.1 = locale kd.2) (unique_loop data acc).
Proof.
  revert acc. induction data as [|x data IH]; intros acc Hacc; [exact Hacc|].
  cbn. apply IH. unfold unique_step.
  destruct (has_key (locale x) acc); cbn [negb]; [exact Hacc|].
  apply Forall_app. split; [exact Hacc|]. by repeat constructor.
Qed.

Lemma keys_are_locales (l : list (str * voice)) :
  Forall (fun kd => kd.1 = locale kd.2) l -> locale <$> l.*2 = l.*1.
Proof.
  induction 1 as [|[k d] l Hk _ IH]; [reflexivity|].
  cbn in *. by rewrite IH, Hk.
Qed.

(** What the loop holds at its end: what it held at its start, and for
    each locale not yet held the first voice of [data] with it. *)
Lemma unique_loop_In (data : list voice) (acc : list (str * voice))
    (k : str) (d : voice) :
  (k, d) ∈ unique_loop data acc <->
  (k, d) ∈ acc \/
  (has_key k acc = false /\
   exists before after,
     data = before ++ d :: after /\ locale d = k /\
     Forall (fun x => locale x <> k) before).
Proof.
  revert acc. induction data as [|x data IH]; intros acc.
  - cbn. split; [by left|]. intros [H | (_ & [|? ?] & after & H & _)]; done.
  - cbn [unique_loop fold_left]. fold (unique_loop data (unique_step acc x)).
    rewrite IH. unfold unique_step.
    destruct (has_key (locale x) acc) eqn:E; cbn [negb].
    + split.
      * intros [H | (Hk & before & after & -> & Hd & Hb)]; [by left|].
        right. split; [exact Hk|]. exists (x :: before), after.
        split; [reflexivity|]. split; [exact Hd|].
        constructor; [congruence | exact Hb].
      * intros [H | (Hk & before & after & Hdata & Hd & Hb)]; [by left|].
        right. split; [exact Hk|]. destruct before as [|y before].
        -- injection Hdata as -> ->. congruence.
        -- injection Hdata as -> ->. apply Forall_cons in Hb as [_ Hb].
           by exists before, after.
    + rewrite elem_of_app, list_elem_of_singleton, has_key_app. cbn [has_key].
      rewrite orb_false_r. split.
      * intros [[H | [= -> ->]] | (Hk & before & after & -> & Hd & Hb)].
        -- by left.
        -- right. split; [exact E|]. exists [], data. by repeat split.
        -- apply orb_false_iff in Hk as [Hk Hne]. apply str_eqb_neq in Hne.
           right. split; [exact Hk|]. exists (x :: before), after.
           split; [reflexivity|]. split; [exact Hd|].
           constructor; [congruence | exact Hb].
      * intros [H | (Hk & before & after & Hdata & Hd & Hb)]; [by left; left|].
        destruct before as [|y before].
        -- injection Hdata as -> ->. left. right. by rewrite Hd.
        -- injection Hdata as -> ->. apply Forall_cons in Hb as [Hy Hb].
           right. split.
           ++ rewrite Hk. cbn. apply str_eqb_neq. congruence.
           ++ by exists before, after.
Qed.

Lemma first_of_locale_parsed (raw_voices : list raw_voice) (d : voice) :
  (exists before after,
      map parse_voice raw_voices = before ++ d :: after /\
      Forall (fun x => locale x <> locale d) before) <->
  exists v, first_of_locale raw_voices v /\ d = parse_voice v.
Proof.
  split.
  - intros (before & after & Hmap & Hb).
    change (parse_voice <$> raw_voices = before ++ d :: after) in Hmap.
    apply fmap_app_inv in Hmap as (rb & rest & -> & Hrest & ->).
    destruct rest as [|v ra]; [discriminate|].
    injection Hrest as -> _. exists v. split; [|reflexivity].
    exists rb, ra. split; [reflexivity|].
    apply Forall_forall. intros u Hu. rewrite Forall_forall in Hb.
    apply (Hb (parse_voice u)). by apply list_elem_of_fmap_2.
  - intros (v & (rb & ra & -> & Hb) & ->).
    exists (map parse_voice rb), (map parse_voice ra).
    split; [by rewrite map_app|].
    change (map parse_voice rb) with (parse_voice <$> rb).
    apply Forall_forall. intros x (u & -> & Hu)%list_elem_of_fmap.
    rewrite Forall_forall in Hb. by apply Hb.
Qed.

(** X21: the languages page lists one voice for each locale of the
    catalog, namely the first one fetched with that locale, in strictly
    ascending order of locale (so no locale appears twice). *)
Theorem languages_lists_first_voice_per_locale (raw_voices : list raw_voice) :
  let shown := listed (languages (inl raw_voices)) in
  StronglySorted (fun a b => str_ltb (locale a) (locale b) = true) shown /\
  (forall d, In d shown <->
     exists v, first_of_locale raw_voices v /\ d = parse_voice v) /\
  (forall v, In v raw_voices ->
     exists d, In d shown /\ locale d = Locale v).
Proof.
  cbn zeta. cbn [languages listed].
  set (unique := unique_loop (map parse_voice raw_voices) []).
  assert (Hin : forall d, In d (sorted_by locale (map snd unique)) <->
            exists v, first_of_locale raw_voices v /\ d = parse_voice v).
  { intros d. rewrite <- first_of_locale_parsed.
    rewrite <- !list_elem_of_In, sorted_by_perm.
    change (map snd unique) with (unique.*2). rewrite list_elem_of_fmap.
    split.
    - intros ([k d'] & -> & H). apply unique_loop_In in H as [H | H].
      + by apply elem_of_nil in H.
      + destruct H as (_ & before & after & Hd & <- & Hb). by exists before, after.
    - intros (before & after & Hd & Hb). exists (locale d, d).
      split; [reflexivity|]. apply unique_loop_In. right.
      split; [reflexivity|]. by exists before, after. }
  split; [|split; [exact Hin|]].
  - apply sorted_distinct_is_strict; [apply sorted_by_sorted|].
    rewrite sorted_by_perm.
    change (map snd unique) with (unique.*2).
    rewrite keys_are_locales by (apply unique_loop_keys; constructor). apply unique_loop_NoDup. constructor.
  - intros v Hv.
    assert (Hfirst : exists u, first_of_locale raw_voices u /\ Locale u = Locale v).
    { clear Hin unique. induction raw_voices as [|x l IH]; [done|].
      destruct (decide (Locale x = Locale v)) as [Hx | Hx].
      - exists x. split; [|exact Hx]. by exists [], l.
      - destruct Hv as [-> | Hv]; [done|].
        destruct (IH Hv) as (u & (before & after & -> & Hb) & Hu).
        exists u. split; [|exact Hu]. exists (x :: before), after.
        split; [reflexivity|]. constructor; [congruence | exact Hb]. }
    destruct Hfirst as (u & Hu & Hloc).
    exists (parse_voice u). split; [|exact Hloc].
    apply Hin. by exists u.
Qed.

Lemma languages_lists_first_voice_per_locale_witness :
  exists d,
    In d (listed (languages (inl Samples.catalog))) /\
    locale d = Locale Samples.aria.
Proof.
  apply (proj2 (proj2 (languages_lists_first_voice_per_locale Samples.catalog))).
  right. right. left. reflexivity.
Defined.

(** X22: for a verified session the generator page shows every voice of
    the catalog once, in ascending order of locale, and voices of the same
    locale stay in the order in which they were fetched. *)
Theorem root_lists_voices_by_locale (s : session) (raw_voices : list raw_voice) :
  session_get s (lit "verified_user") = true ->
  let shown := listed (root s (inl raw_voices)) in
  Permutation shown (map parse_voice raw_voices) /\
  StronglySorted (fun a b => str_le (locale a) (locale b)) shown /\
  (forall k,
      List.filter (fun d => str_eqb (locale d) k) shown
      = List.filter (fun d => str_eqb (locale d) k)
          (map parse_voice raw_voices)).
Proof.
  intros Hs. unfold root. rewrite Hs. cbn [negb listed].
  assert (Hmap : map parse_voice (sorted_by Locale raw_voices)
                 = sorted_by locale (map parse_voice raw_voices)).
  { induction raw_voices as [|x l IH]; [reflexivity|].
    cbn [sorted_by foldr map]. fold (sorted_by Locale l).
    fold (sorted_by locale (map parse_voice l)). rewrite <- IH.
    generalize (sorted_by Locale l). intros l'.
    induction l' as [|y l' IH']; [reflexivity|]. cbn [insert_by map].
    change (locale (parse_voice y)) with (Locale y).
    change (locale (parse_voice x)) with (Locale x).
    destruct (str_ltb (Locale y) (Locale x)); [|reflexivity].
    cbn [map]. by rewrite IH'. }
  rewrite Hmap. split; [apply sorted_by_perm|].
  split; [apply sorted_by_sorted|]. intros k. apply sorted_by_stable.
Qed.

Lemma root_lists_voices_by_locale_witness :
  Permutation
    (listed (root {[ lit "verified_user" := true ]}
               (inl [Samples.denise; Samples.guy; Samples.aria])))
    (map parse_voice [Samples.denise; Samples.guy; Samples.aria]).
Proof.
  apply (proj1 (root_lists_voices_by_locale {[ lit "verified_user" := true ]}
                  [Samples.denise; Samples.guy; Samples.aria]
                  ltac:(unfold session_get; by rewrite lookup_singleton_eq))).
Defined.

Example root_order :
  map Voice.id (listed (root {[ lit "verified_user" := true ]}
                          (inl [Samples.denise; Samples.guy; Samples.aria])))
  = [lit "en-US-GuyNeural"; lit "en-US-AriaNeural"; lit "fr-FR-DeniseNeural"].
Proof. reflexivity. Qed.

Example languages_order :
  map Voice.id (listed (languages (inl [Samples.denise; Samples.guy; Samples.aria])))
  = [lit "en-US-GuyNeural"; lit "fr-FR-DeniseNeural"].
Proof. reflexivity. Qed.

(** ** The session *)

Lemma session_get_insert_other (s : session) (k k' : str) (b : bool) :
  k <> k' -> session_get (<[k := b]> s) k' = session_get s k'.
Proof. intros H. unfold session_get. by rewrite lookup_insert_ne. Qed.

Lemma session_get_delete_other (s : session) (k k' : str) :
  k <> k' -> session_get (delete k s) k' = session_get s k'.
Proof. intros H. unfold session_get. by rewrite lookup_delete_ne. Qed.

Lemma admin_login_cases (method : http_method) (form : multidict)
    (s : session) :
  (granted method form /\
   admin_login method form s
   = (<[lit "admin_logged_in" := true]> s, Redirect (lit "admin_panel"))) \/
  (~ granted method form /\
   admin_login method form s
   = (s, Template (lit "admin_login.html") NoContext)).
Proof.
  unfold granted, admin_login. destruct method.
  - right. split; [by intros [? _] | reflexivity].
  - destruct (decide (md_get (lit "username") form = Some (lit "Spidey")))
      as [Hu | Hu];
    destruct (decide (md_get (lit "password") form = Some (lit "Admin_734401")))
      as [Hp | Hp].
    + left. rewrite !bool_decide_eq_true_2 by done. by repeat split.
    + right. rewrite (bool_decide_eq_false_2 _ Hp), andb_false_r. tauto.
    + right. rewrite (bool_decide_eq_false_2 _ Hu). cbn [andb]. tauto.
    + right. rewrite (bool_decide_eq_false_2 _ Hu). cbn [andb]. tauto.
Qed.

(** X23: the admin login marks the session exactly when the request is a
    [POST] whose form holds the user name "Spidey" and the password
    "Admin_734401"; then the panel shows the loaded counters.  Any other
    request gets the login page again and leaves the session as it was.
    The security check of the front page plays no part. *)
Theorem admin_login_needs_credentials (method : http_method)
    (form : multidict) (s : session) (readable : bool)
    (f : option content) :
  let s' := fst (admin_login method form s) in
  let page := snd (admin_login method form s) in
  (page = Redirect (lit "admin_panel") <-> granted method form) /\
  (granted method form ->
   admin_panel s' readable f
   = Template (lit "admin_panel.html") (StatsCtx (load_stats readable f))) /\
  (~ granted method form ->
   s' = s /\ page = Template (lit "admin_login.html") NoContext) /\
  session_get s' (lit "verified_user") = session_get s (lit "verified_user").
Proof.
  cbn zeta.
  destruct (admin_login_cases method form s) as [[Hg ->] | [Hg ->]];
    cbn [fst snd].
  - split; [done|]. split; [|split; [done|]].
    + intros _. unfold admin_panel, session_get.
      by rewrite lookup_insert_eq.
    + apply session_get_insert_other. cbv. discriminate.
  - split; [split; [discriminate | done]|]. by repeat split.
Qed.

Lemma admin_login_needs_credentials_witness :
  admin_panel
    (fst (admin_login POST [(lit "username", lit "Spidey");
                            (lit "password", lit "Admin_734401")] ∅))
    true (Some (Doc (counters 4 3 1)))
  = Template (lit "admin_panel.html") (StatsCtx (counters 4 3 1)).
Proof.
  apply (proj1 (proj2 (admin_login_needs_credentials POST
                         [(lit "username", lit "Spidey");
                          (lit "password", lit "Admin_734401")] ∅ true
                         (Some (Doc (counters 4 3 1)))))).
  by repeat split.
Defined.

(** X24: to a session marked as logged in the panel shows what
    [load_stats] returns: the stored record when the stats file is a
    readable document, the zero record when it is absent or cannot be
    loaded.  Any other session is redirected to the login.  After
    [logout] the panel redirects, while the front page answers as before:
    the mark of the security check survives the logout. *)
Theorem logout_locks_panel (s : session) (readable : bool)
    (f : option content) (listing : list raw_voice + str) :
  (session_get s (lit "admin_logged_in") = true ->
   admin_panel s readable f
   = Template (lit "admin_panel.html") (StatsCtx (load_stats readable f)) /\
   (forall j, admin_panel s true (Some (Doc j))
              = Template (lit "admin_panel.html") (StatsCtx j)) /\
   admin_panel s readable None
   = Template (lit "admin_panel.html") (StatsCtx (counters 0 0 0))) /\
  ((exists j, admin_panel s readable f
              = Template (lit "admin_panel.html") (StatsCtx j)) <->
   session_get s (lit "admin_logged_in") = true) /\
  (session_get s (lit "admin_logged_in") = false ->
   admin_panel s readable f = Redirect (lit "admin_login")) /\
  admin_panel (fst (logout s)) readable f = Redirect (lit "admin_login") /\
  root (fst (logout s)) listing = root s listing.
Proof.
  unfold admin_panel, logout. cbn [fst].
  split; [|split; [|split; [|split]]].
  - intros ->. cbn [negb]. by repeat split.
  - destruct (session_get s (lit "admin_logged_in")); cbn [negb].
    + split; [done | eauto].
    + split; [by intros [j Hj] | done].
  - by intros ->.
  - unfold session_get. by rewrite lookup_delete_eq.
  - unfold root. rewrite session_get_delete_other; [reflexivity|].
    cbv. discriminate.
Qed.

Lemma logout_locks_panel_witness :
  admin_panel {[ lit "admin_logged_in" := true ]} true
    (Some (Doc (counters 4 3 1)))
  = Template (lit "admin_panel.html") (StatsCtx (counters 4 3 1)).
Proof.
  apply (proj1 (proj2 (proj1 (logout_locks_panel
                                {[ lit "admin_logged_in" := true ]} true
                                None (inl []))
                         ltac:(unfold session_get;
                               by rewrite lookup_singleton_eq)))).
Defined.

(** X25: the front page shows the security check exactly to a session
    that has not passed it, without looking at the voice list; after
    [verify_security] it shows the generator or the engine's error, never
    the check again.  Passing the check does not log in to the panel. *)
Theorem security_check_gates_root (s : session)
    (listing : list raw_voice + str) :
  (root s listing = Template (lit "security.html") NoContext <->
   session_get s (lit "verified_user") = false) /\
  root (fst (verify_security s)) listing
  <> Template (lit "security.html") NoContext /\
  snd (verify_security s) = Redirect (lit "root") /\
  session_get (fst (verify_security s)) (lit "admin_logged_in")
  = session_get s (lit "admin_logged_in").
Proof.
  assert (Hroot : forall s0, session_get s0 (lit "verified_user") = true ->
            root s0 listing <> Template (lit "security.html") NoContext).
  { intros s0 H. unfold root. rewrite H. cbn [negb].
    destruct listing; intros Heq; [|discriminate Heq].
    injection Heq as Heq _. cbv in Heq. discriminate Heq. }
  split; [|split; [|split]].
  - destruct (session_get s (lit "verified_user")) eqn:E.
    + split; [intros H; by apply Hroot in H | discriminate].
    + split; [done|]. intros _. unfold root. by rewrite E.
  - apply Hroot. unfold verify_security, session_get. cbn [fst].
    by rewrite lookup_insert_eq.
  - reflexivity.
  - unfold verify_security. cbn [fst].
    apply session_get_insert_other. cbv. discriminate.
Qed.

Lemma security_check_gates_root_witness :
  root ∅ (inl Samples.catalog) = Template (lit "security.html") NoContext.
Proof.
  apply (proj1 (security_check_gates_root ∅ (inl Samples.catalog))).
  reflexivity.
Defined.
